(** * uni-sim: the concentrated-liquidity pool of [src/uniswap_v3_pool.py]

    A shallow embedding of the class [UniswapV3Pool] (position and tick
    ledgers, tick crossing, the simplified swap) together with the
    properties of the pool engine that the specification states.

    Conventions of the embedding.
    - Python [int] is [Z].  Tick indices, liquidity amounts and the Q64.96
      square-root price are Python ints in every caller of the pool.
    - Python [float] is an abstract type [F] with the operations the pool
      uses (interface [PyFloat]).  The instance [Binary64] is the IEEE 754
      double precision numbers Python computes with (executable).  A
      property that depends on how the operations round is stated for any
      instance, over the run at hand, with the accuracy of each operation
      of the run as a hypothesis (sections [Rounding] and
      [ConverterRounding]).
    - A method is a function [Pool -> Pool * result A]: the pool after the
      call, and either the returned value or the exception raised.  A raise
      keeps whatever the method had already written to the pool.
    - [dict] is stdpp's [gmap]. *)

From Stdlib Require Import ZArith QArith Qabs Qround Qpower Floats SpecFloat.
From Stdlib Require Import Lia Lqa Psatz.
From stdpp Require Import gmap strings list sorting.

Close Scope Q_scope.
Local Open Scope Z_scope.

(** ** Exceptions and results *)

Inductive exn : Set :=
| ValueError
| OverflowError
| ZeroDivisionError
| KeyError.

Inductive result (A : Type) : Type :=
| Ok (a : A)
| Raise (e : exn).

Arguments Ok {A} a.
Arguments Raise {A} e.

(** ** The float operations the pool uses *)

Class PyFloat (F : Type) : Type := {
  (** a float literal of the source ([0.1], [0.05]) or an int constant
      converted in a mixed operation ([1], [2], [100], [2**96]) *)
  flit : Q -> F;
  (** an int operand converted in a mixed operation; OverflowError when
      it is too large *)
  float_of_int : Z -> result F;
  (** [n / m] on two ints (true division) *)
  int_truediv : Z -> Z -> result F;
  (** [int(x)]: truncation towards zero; raises on infinities and NaN *)
  int_of_float : F -> result Z;
  (** [math.floor(x)]: raises on infinities and NaN *)
  math_floor : F -> result Z;
  fadd : F -> F -> F;
  fsub : F -> F -> F;
  fmul : F -> F -> F;
  (** [x / y] on floats; ZeroDivisionError when [y] is zero *)
  fdiv : F -> F -> result F;
  (** [x ** 2] *)
  fsquare : F -> result F;
  (** [math.sqrt(x)]; ValueError on negative numbers *)
  math_sqrt : F -> result F;
  (** [x < y] and [x <= y] *)
  flt : F -> F -> bool;
  fle : F -> F -> bool
}.

(** Python's two-argument [max] and [min] return the first argument unless
    the second is strictly greater (resp. smaller). *)
Definition py_max {F} `{PyFloat F} (a b : F) : F := if flt a b then b else a.
Definition py_min {F} `{PyFloat F} (a b : F) : F := if flt b a then b else a.

(** A number passed by a caller is an int or a float: the swap amount is an
    int in [simulation.py] and a float in the trading agents. *)
Inductive pynum (F : Type) : Type :=
| PInt (n : Z)
| PFloat (x : F).

Arguments PInt {F} n.
Arguments PFloat {F} x.

(** ** Instance: IEEE 754 binary64 *)

Module Binary64.

(** The quotient [a / b] of two integers ([b <> 0]) rounded to the nearest
    binary64 number, ties to even.  The quotient is computed with at
    least 56 significant bits and a sticky bit, which [binary_normalize]
    then rounds. *)
Definition SF_of_ratio (a b : Z) : spec_float :=
  let s := xorb (a <? 0) (b <? 0) in
  let n := Z.abs a in
  let d := Z.abs b in
  if n =? 0 then S754_zero s
  else
    let k := Z.max 0 (56 + Z.log2 d - Z.log2 n) in
    let q := (n * 2 ^ k) / d in
    let r := (n * 2 ^ k) mod d in
    let m := 2 * q + (if r =? 0 then 0 else 1) in
    binary_normalize prec emax (if s then - m else m) (- k - 1) false.

Definition of_ratio (a b : Z) : float := SF2Prim (SF_of_ratio a b).

Definition of_Q (q : Q) : float := of_ratio (Qnum q) (Z.pos (Qden q)).

Definition of_int (n : Z) : result float :=
  let x := of_ratio n 1 in
  if PrimFloat.is_infinity x then Raise OverflowError else Ok x.

Definition truediv (n m : Z) : result float :=
  if m =? 0 then Raise ZeroDivisionError
  else
    let x := of_ratio n m in
    if PrimFloat.is_infinity x then Raise OverflowError else Ok x.

Definition to_int (x : float) : result Z :=
  match Prim2SF x with
  | S754_zero _ => Ok 0
  | S754_infinity _ => Raise OverflowError
  | S754_nan => Raise ValueError
  | S754_finite s m e =>
      let v := if 0 <=? e then Z.pos m * 2 ^ e else Z.pos m / 2 ^ (- e) in
      Ok (if s then - v else v)
  end.

Definition floor (x : float) : result Z :=
  match Prim2SF x with
  | S754_zero _ => Ok 0
  | S754_infinity _ => Raise OverflowError
  | S754_nan => Raise ValueError
  | S754_finite s m e =>
      let n := if s then Z.neg m else Z.pos m in
      Ok (if 0 <=? e then n * 2 ^ e else n / 2 ^ (- e))
  end.


Definition div (x y : float) : result float :=
  if PrimFloat.eqb y PrimFloat.zero then Raise ZeroDivisionError
  else Ok (PrimFloat.div x y).

(** [x ** 2] is the C library's [pow(x, 2.0)], which IEEE 754 does not
    fix to the last bit; it is read here as the correctly rounded product
    [x * x].  The concrete runs evaluated with this instance rest on that
    reading; what is proved for every instance does not.  CPython raises
    OverflowError when the power of a finite number overflows. *)
Definition square (x : float) : result float :=
  let y := PrimFloat.mul x x in
  if PrimFloat.is_infinity y && negb (PrimFloat.is_infinity x)
  then Raise OverflowError else Ok y.

Definition sqrt (x : float) : result float :=
  if PrimFloat.ltb x PrimFloat.zero then Raise ValueError
  else Ok (PrimFloat.sqrt x).

#[export] Instance ops : PyFloat float := {|
  flit := of_Q;
  float_of_int := of_int;
  int_truediv := truediv;
  int_of_float := to_int;
  math_floor := floor;
  fadd := PrimFloat.add;
  fsub := PrimFloat.sub;
  fmul := PrimFloat.mul;
  fdiv := div;
  fsquare := square;
  math_sqrt := sqrt;
  flt := PrimFloat.ltb;
  fle := PrimFloat.leb
|}.

End Binary64.

(** ** The pool *)

(** A position key is the tuple [(owner, lower_tick, upper_tick)]. *)
Abbreviation position_key := (string * Z * Z)%type.

Section Pool.

Context {F : Type} `{PyFloat F}.

(** [get_tick_at_sqrt_price] rounds [math.log(price, math.sqrt(1.0001))]
    down.  [math.log] is a function of the C library whose binary64
    result IEEE 754 does not fix, so the converter is a parameter of the
    pool operations: everything below holds whatever it returns.  It may
    raise (OverflowError escapes its [except] clause). *)
Variable get_tick_at_sqrt_price : Z -> result Z.

(** The attributes of [UniswapV3Pool] that its methods read or write
    ([token0] and [token1] are only stored). *)
Record Pool : Type := mkPool {
  fee : F;
  tick_spacing : Z;
  sqrt_price_x96 : Z;
  liquidity : Z;
  tick : Z;
  positions : gmap position_key Z;
  ticks : gmap Z Z
}.

Definition set_sqrt_price_x96 (v : Z) (p : Pool) : Pool :=
  mkPool (fee p) (tick_spacing p) v (liquidity p) (tick p)
         (positions p) (ticks p).
Definition set_liquidity (v : Z) (p : Pool) : Pool :=
  mkPool (fee p) (tick_spacing p) (sqrt_price_x96 p) v (tick p)
         (positions p) (ticks p).
Definition set_tick (v : Z) (p : Pool) : Pool :=
  mkPool (fee p) (tick_spacing p) (sqrt_price_x96 p) (liquidity p) v
         (positions p) (ticks p).
Definition set_positions (v : gmap position_key Z) (p : Pool) : Pool :=
  mkPool (fee p) (tick_spacing p) (sqrt_price_x96 p) (liquidity p) (tick p)
         v (ticks p).
Definition set_ticks (v : gmap Z Z) (p : Pool) : Pool :=
  mkPool (fee p) (tick_spacing p) (sqrt_price_x96 p) (liquidity p) (tick p)
         (positions p) v.

(** [__init__]: no pool is built when the converter raises. *)
Definition init (fee0 : F) (spacing initial_sqrt_price : Z) : result Pool :=
  match get_tick_at_sqrt_price initial_sqrt_price with
  | Ok t => Ok (mkPool fee0 spacing initial_sqrt_price 0 t ∅ ∅)
  | Raise e => Raise e
  end.

(** *** Position and tick ledgers *)

(** [math.floor(t / spacing) * spacing] (lines 53-54).  [t / spacing] is
    the true division of two ints, a float: it raises ZeroDivisionError on
    a spacing of 0 and OverflowError on a quotient too large for a float,
    and it is rounded, so that for large ticks the result need not be the
    multiple of the spacing next below [t]. *)
Definition align (t spacing : Z) : result Z :=
  match int_truediv t spacing with
  | Ok q =>
      match math_floor q with
      | Ok k => Ok (k * spacing)
      | Raise e => Raise e
      end
  | Raise e => Raise e
  end.

(** [lower_tick <= self.tick < upper_tick] *)
Definition in_range (lower upper : Z) (p : Pool) : bool :=
  (lower <=? tick p) && (tick p <? upper).

(** [self.ticks.get(t, 0)] *)
Definition tick_delta (m : gmap Z Z) (t : Z) : Z := default 0 (m !! t).

(** [if t not in self.ticks: self.ticks[t] = 0] *)
Definition ensure_tick (t : Z) (m : gmap Z Z) : gmap Z Z :=
  match m !! t with
  | None => <[t := 0]> m
  | Some _ => m
  end.

(** [self.ticks[t] += d] on an entry that exists *)
Definition adjust_tick (t d : Z) (m : gmap Z Z) : gmap Z Z :=
  <[t := tick_delta m t + d]> m.

(** Lines 56-76 of [add_position]: the writes, on the aligned ticks. *)
Definition store_position (owner : string) (lower_tick upper_tick amount : Z)
    (p : Pool) : Pool :=
  let position_key := (owner, lower_tick, upper_tick) in
  let p1 :=
    match positions p !! position_key with
    | Some held => set_positions (<[position_key := held + amount]> (positions p)) p
    | None => set_positions (<[position_key := amount]> (positions p)) p
    end in
  let p2 := set_ticks (ensure_tick upper_tick (ensure_tick lower_tick (ticks p1))) p1 in
  let p3 := set_ticks (adjust_tick lower_tick amount (ticks p2)) p2 in
  let p4 := set_ticks (adjust_tick upper_tick (- amount) (ticks p3)) p3 in
  if in_range lower_tick upper_tick p4
  then set_liquidity (liquidity p4 + amount) p4
  else p4.

(** [add_position]: the two alignments of lines 53-54 come first and
    write nothing, so a call that raises there leaves the pool as it was. *)
Definition add_position (owner : string) (lower_tick upper_tick amount : Z)
    (p : Pool) : Pool * result unit :=
  match align lower_tick (tick_spacing p) with
  | Raise e => (p, Raise e)
  | Ok lower_tick =>
      match align upper_tick (tick_spacing p) with
      | Raise e => (p, Raise e)
      | Ok upper_tick =>
          (store_position owner lower_tick upper_tick amount p, Ok tt)
      end
  end.

Definition remove_position (owner : string) (lower_tick upper_tick amount : Z)
    (p : Pool) : Pool * result unit :=
  let position_key := (owner, lower_tick, upper_tick) in
  match positions p !! position_key with
  | None => (p, Raise ValueError)
  | Some held =>
      if held <? amount then (p, Raise ValueError)
      else
        let positions1 :=
          if held - amount =? 0 then delete position_key (positions p)
          else <[position_key := held - amount]> (positions p) in
        let p1 := set_positions positions1 p in
        match ticks p1 !! lower_tick with
        | None => (p1, Raise KeyError)
        | Some d_lower =>
            let p2 := set_ticks (<[lower_tick := d_lower - amount]> (ticks p1)) p1 in
            match ticks p2 !! upper_tick with
            | None => (p2, Raise KeyError)
            | Some d_upper =>
                let p3 := set_ticks (<[upper_tick := d_upper + amount]> (ticks p2)) p2 in
                if in_range lower_tick upper_tick p3
                then (set_liquidity (liquidity p3 - amount) p3, Ok tt)
                else (p3, Ok tt)
            end
        end
  end.

(** *** Tick crossing *)

Definition cross_tick (t : Z) (p : Pool) : Pool :=
  let net_liquidity_change := tick_delta (ticks p) t in
  let p1 :=
    if tick p <? t then
      set_liquidity (liquidity p + net_liquidity_change) p
    else if liquidity p <? net_liquidity_change then
      set_liquidity 0 p
    else
      set_liquidity (liquidity p - net_liquidity_change) p in
  set_liquidity (Z.max 0 (liquidity p1)) p1.

(** [sorted(self.ticks.keys())] and [sorted(..., reverse=True)] *)
Definition sorted_ticks (zero_for_one : bool) (p : Pool) : list Z :=
  let ascending := merge_sort Z.le (elements (dom (ticks p))) in
  if zero_for_one then reverse ascending else ascending.

(** The test of the two [for] loops of [swap_simple]:
    [old_tick >= tick > self.tick] when the price moves down,
    [old_tick <= tick < self.tick] when it moves up. *)
Definition is_crossed (zero_for_one : bool) (old_tick t : Z) (p : Pool) : bool :=
  if zero_for_one then (t <=? old_tick) && (tick p <? t)
  else (old_tick <=? t) && (t <? tick p).

(** The loop body applied to the keys in order. *)
Fixpoint cross_loop (zero_for_one : bool) (old_tick : Z) (ts : list Z)
    (p : Pool) : Pool :=
  match ts with
  | [] => p
  | t :: ts' =>
      cross_loop zero_for_one old_tick ts'
        (if is_crossed zero_for_one old_tick t p then cross_tick t p else p)
  end.

(** The pool after each [cross_tick] call of the loop, in call order. *)
Fixpoint cross_loop_states (zero_for_one : bool) (old_tick : Z) (ts : list Z)
    (p : Pool) : list Pool :=
  match ts with
  | [] => []
  | t :: ts' =>
      if is_crossed zero_for_one old_tick t p
      then cross_tick t p
             :: cross_loop_states zero_for_one old_tick ts' (cross_tick t p)
      else cross_loop_states zero_for_one old_tick ts' p
  end.

(** *** The swap *)

(** Methods as state transformers that may raise. *)
Definition M (A : Type) : Type := Pool -> Pool * result A.

Definition ret {A} (a : A) : M A := fun p => (p, Ok a).
Definition bind {A B} (m : M A) (k : A -> M B) : M B :=
  fun p => match m p with
           | (p1, Ok a) => k a p1
           | (p1, Raise e) => (p1, Raise e)
           end.
Definition lift {A} (r : result A) : M A := fun p => (p, r).
Definition read {A} (f : Pool -> A) : M A := fun p => (p, Ok (f p)).
Definition write (f : Pool -> Pool) : M unit := fun p => (f p, Ok tt).

Notation "'do' x <- m ; k" := (bind m (fun x => k))
  (at level 10, x name, m at level 100, k at level 200, only parsing).
Notation "'do' ' pat <- m ; k" := (bind m (fun x => match x with pat => k end))
  (at level 10, pat pattern, m at level 100, k at level 200, only parsing).

(** "[amountSpecified] is at most 0", for an int and for a float amount. *)
Definition amount_nonpositive (a : pynum F) : Prop :=
  match a with
  | PInt n => n <= 0
  | PFloat x => fle x (flit 0) = true
  end.

(** [amount_specified <= 0] *)
Definition num_le0 (a : pynum F) : bool :=
  match a with
  | PInt n => n <=? 0
  | PFloat x => fle x (flit 0)
  end.

(** the float operand of [amount_specified * (1 - self.fee)] *)
Definition num_to_float (a : pynum F) : result F :=
  match a with
  | PInt n => float_of_int n
  | PFloat x => Ok x
  end.

(** [int(x)] *)
Definition py_int (a : pynum F) : result Z :=
  match a with
  | PInt n => Ok n
  | PFloat x => int_of_float x
  end.

(** [int(math.sqrt(price) * 2**96)] *)
Definition sqrt_price_of (price : F) : result Z :=
  match math_sqrt price with
  | Ok s => int_of_float (fmul s (flit (inject_Z (2 ^ 96))))
  | Raise e => Raise e
  end.

(** Lines 156-209 of [swap_simple]: the fee, the price floor, the impact
    factor and the new price.  Returns the price the impact is applied to,
    the new price, and the amount of the other token paid out (still a
    float, or the int [0] of the guarded division). *)
Definition swap_reprice (zero_for_one : bool) (amount_specified : pynum F)
    : M (F * F * pynum F) :=
  do a <- lift (num_to_float amount_specified);
  do fee0 <- read fee;
  let amount_in := fmul a (fsub (flit 1) fee0) in
  do starting_sqrt_price <- read sqrt_price_x96;
  do r <- lift (int_truediv starting_sqrt_price (2 ^ 96));
  do price0 <- lift (fsquare r);
  do starting_price <-
    (if flt price0 (flit 0.1)
     then
       let min_price := flit 0.05 in
       let clamped := py_max price0 min_price in
       do s <- lift (sqrt_price_of clamped);
       do _ <- write (set_sqrt_price_x96 s);
       ret clamped
     else ret price0);
  do l <- read liquidity;
  do q <- lift (int_truediv l (10 ^ 9));
  let effective_liquidity := py_max (flit 1000000) q in
  do impact_factor <-
    lift (fdiv amount_in (fmul effective_liquidity (flit 100)));
  if zero_for_one then
    let impact_factor := py_min impact_factor (flit 0.1) in
    let new_price := fmul starting_price (fsub (flit 1) impact_factor) in
    let new_price := py_max (flit 0.1) new_price in
    do avg_price <- lift (fdiv (fadd starting_price new_price) (flit 2));
    let token1_out := fmul amount_in avg_price in
    do new_sqrt_price <- lift (sqrt_price_of new_price);
    do _ <- write (set_sqrt_price_x96 (Z.max 1 new_sqrt_price));
    ret (starting_price, new_price, PFloat token1_out)
  else
    let impact_factor := py_min impact_factor (flit 0.1) in
    let new_price := fmul starting_price (fadd (flit 1) impact_factor) in
    do avg_price <- lift (fdiv (fadd starting_price new_price) (flit 2));
    do token0_out <-
      (if flt (flit 0) avg_price
       then do x <- lift (fdiv amount_in avg_price); ret (PFloat x)
       else ret (PInt 0));
    do new_sqrt_price <- lift (sqrt_price_of new_price);
    do _ <- write (set_sqrt_price_x96 new_sqrt_price);
    ret (starting_price, new_price, token0_out).

(** Lines 211-227: the new tick and the crossings.  Returns [old_tick]. *)
Definition swap_retick (zero_for_one : bool) : M Z :=
  do old_tick <- read tick;
  do s <- read sqrt_price_x96;
  do t <- lift (get_tick_at_sqrt_price s);
  do _ <- write (set_tick t);
  do _ <-
    (if old_tick =? t then ret tt
     else
       write (fun p =>
                cross_loop zero_for_one old_tick (sorted_ticks zero_for_one p) p));
  ret old_tick.

Definition swap_simple (zero_for_one : bool) (amount_specified : pynum F)
    : M (pynum F * pynum F) :=
  do l <- read liquidity;
  if num_le0 amount_specified || (l <=? 0) then ret (PInt 0, PInt 0)
  else
    do '(_, _, token_out) <- swap_reprice zero_for_one amount_specified;
    do _ <- swap_retick zero_for_one;
    do out <- lift (py_int token_out);
    if zero_for_one then ret (amount_specified, PInt (- out))
    else ret (PInt (- out), amount_specified).

(** [swap = swap_simple] *)
Definition swap := swap_simple.

(** The pool after each [cross_tick] call made by one swap. *)
Definition swap_crossing_states (zero_for_one : bool)
    (amount_specified : pynum F) (p : Pool) : list Pool :=
  if num_le0 amount_specified || (liquidity p <=? 0) then []
  else
    match swap_reprice zero_for_one amount_specified p with
    | (p1, Ok _) =>
        match get_tick_at_sqrt_price (sqrt_price_x96 p1) with
        | Ok t =>
            if tick p1 =? t then []
            else
              cross_loop_states zero_for_one (tick p1)
                (sorted_ticks zero_for_one (set_tick t p1)) (set_tick t p1)
        | Raise _ => []
        end
    | (_, Raise _) => []
    end.

(** *** Sequences of operations *)

Inductive ledger_op : Type :=
| AddPosition (owner : string) (lower_tick upper_tick amount : Z)
| RemovePosition (owner : string) (lower_tick upper_tick amount : Z).

(** One call; a raise is caught by the caller, the pool stays as the
    method left it. *)
Definition apply_op (op : ledger_op) (p : Pool) : Pool :=
  match op with
  | AddPosition o l u a => fst (add_position o l u a p)
  | RemovePosition o l u a => fst (remove_position o l u a p)
  end.

(** The pool after each operation of a sequence. *)
Fixpoint ledger_states (ops : list ledger_op) (p : Pool) : list Pool :=
  match ops with
  | [] => []
  | op :: ops' => apply_op op p :: ledger_states ops' (apply_op op p)
  end.

Definition run_ledger (ops : list ledger_op) (p : Pool) : Pool :=
  foldl (fun q op => apply_op op q) p ops.

(** The pool after each crossing and at the return of each swap of a
    sequence of [swap(zero_for_one, amount)] calls. *)
Fixpoint swap_states (calls : list (bool * pynum F)) (p : Pool) : list Pool :=
  match calls with
  | [] => []
  | (z, a) :: calls' =>
      let p' := fst (swap z a p) in
      swap_crossing_states z a p ++ p' :: swap_states calls' p'
  end.

(** The sum of all net deltas of the tick ledger. *)
Definition ledger_sum (m : gmap Z Z) : Z :=
  map_fold (fun _ delta acc => delta + acc) 0 m.

(** The pools a run can reach: built by [__init__], then changed only
    through the public operations. *)
Inductive reachable : Pool -> Prop :=
| reachable_init fee0 spacing s p :
    init fee0 spacing s = Ok p -> reachable p
| reachable_add o l u a p :
    reachable p -> reachable (fst (add_position o l u a p))
| reachable_remove o l u a p :
    reachable p -> reachable (fst (remove_position o l u a p))
| reachable_swap z a p :
    reachable p -> reachable (fst (swap z a p)).

(** *** Invariants of the ledgers *)

(** Every position's two ticks have an entry in the tick ledger. *)
Definition positions_have_ticks (p : Pool) : Prop :=
  forall o l u x, positions p !! (o, l, u) = Some x ->
    is_Some (ticks p !! l) /\ is_Some (ticks p !! u).

(** Every position key holds multiples of the tick spacing. *)
Definition keys_aligned (p : Pool) : Prop :=
  forall o l u x, positions p !! (o, l, u) = Some x ->
    l mod tick_spacing p = 0 /\ u mod tick_spacing p = 0.

(** Every stored position holds a positive liquidity. *)
Definition positions_positive (p : Pool) : Prop :=
  forall k x, positions p !! k = Some x -> 0 < x.

(** No stored position holds liquidity 0. *)
Definition no_zero_position (p : Pool) : Prop :=
  forall k x, positions p !! k = Some x -> x <> 0.

(** Amounts of a run: positive when adding, non-negative when removing. *)
Definition positive_amount (op : ledger_op) : Prop :=
  match op with
  | AddPosition _ _ _ a => 0 < a
  | RemovePosition _ _ _ a => 0 <= a
  end.

(** Amounts of a run as the specification words them: non-negative. *)
Definition nonnegative_amount (op : ledger_op) : Prop :=
  match op with
  | AddPosition _ _ _ a => 0 <= a
  | RemovePosition _ _ _ a => 0 <= a
  end.

End Pool.

(** ** Prices as the specification reads them *)




(** ** The accuracy of the float operations of one repricing *)

Section Rounding.

Context {F : Type} `{PyFloat F}.

(** The rational number a float stands for, and the relative accuracy [u]
    of one operation.  IEEE 754 gives binary64 operations the accuracy
    [2^-53] on results that neither overflow nor underflow. *)
Variable value : F -> Q.
Variable u : Q.







End Rounding.

(** ** Concrete pools and runs *)

(** A converter that answers [t]: it stands for [get_tick_at_sqrt_price] in
    a run that calls it on one price, [t] being the tick at that price. *)
Definition converter_returning (t : Z) : Z -> result Z := fun _ => Ok t.

Module Examples.

Import Binary64.

(** Fee tier 0.3 %, tick spacing 60, price 3000 as in [simulation.py]:
    [int(math.sqrt(3000) * 2**96)], whose tick is 80067. *)
Definition sqrt_price_3000 : Z := 4339505179874779672736325173248.

Definition fresh_pool : Pool :=
  mkPool (flit 0.003%Q) 60 sqrt_price_3000 0 80067 ∅ ∅.

(** One position of liquidity [10^13] over [79980, 80100), in range. *)
Definition one_position_pool : Pool :=
  fst (add_position "LP" 79980 80100 (10 ^ 13) fresh_pool).

(** A pool whose price [(2^93 / 2^96)^2 = 1/64] is below the floor 0.1:
    built at square-root price [2^93] (tick -41591), then given one position
    of liquidity [10^13] over [-60000, 60000). *)
Definition low_price_pool : Pool :=
  fst (add_position "LP" (-60000) 60000 (10 ^ 13)
         (mkPool (flit 0.003%Q) 60 (2 ^ 93) 0 (-41591) ∅ ∅)).


(** [low_price_pool] with a second position, over [-30000, 30000): its
    lower tick lies between the tick of the pool and the tick -23028 of
    the price floor 0.1. *)
Definition low_price_inner_pool : Pool :=
  fst (add_position "LP" (-30000) 30000 (10 ^ 13) low_price_pool).

End Examples.

(** ** The ledgers read as sums over the positions *)

Section LedgerReadings.

Context {F : Type}.

(** [self.positions.get(key, 0)]: the liquidity held under a key. *)
Definition held_liquidity (m : gmap position_key Z) (k : position_key) : Z :=
  default 0 (m !! k).

(** The sum of [w key * liquidity] over the position ledger. *)
Definition weighted_total (w : position_key -> Z) (m : gmap position_key Z)
    : Z :=
  map_fold (fun k x acc => w k * x + acc) 0 m.

(** 1 for a position whose range [lower, upper) holds tick [t], else 0. *)
Definition covers (t : Z) (k : position_key) : Z :=
  if (k.1.2 <=? t) && (t <? k.2) then 1 else 0.

(** +1 for a position whose lower tick is [t], -1 for one whose upper tick
    is [t] (0 when both are). *)
Definition boundary_sign (t : Z) (k : position_key) : Z :=
  (if k.1.2 =? t then 1 else 0) - (if k.2 =? t then 1 else 0).

(** The liquidity of the positions that are in range at the current tick. *)
Definition in_range_liquidity (p : @Pool F) : Z :=
  weighted_total (covers (tick p)) (positions p).

(** The net delta the positions give tick [t]. *)
Definition net_delta_of_positions (p : @Pool F) (t : Z) : Z :=
  weighted_total (boundary_sign t) (positions p).

End LedgerReadings.

(** ** The crossings of a swap *)

Section Crossings.

Context {F : Type}.

(** The ledger ticks that pass the test of the crossing loop, in the order
    the loop meets them. *)
Definition crossed_ticks (zero_for_one : bool) (old_tick : Z) (p : @Pool F)
    : list Z :=
  filter (fun t => is_crossed zero_for_one old_tick t p = true)
         (sorted_ticks zero_for_one p).

End Crossings.

(** ** The price-tick converters and the position valuations *)

Section Converters.

Context {F : Type} `{PyFloat F}.

(** [math.floor(math.log(x, math.sqrt(1.0001)))] and [x ** y]: functions of
    the C library on binary64 numbers, taken as parameters.  Each may
    raise (ValueError on a domain error, OverflowError on a result that is
    too large). *)
Variable floor_log : F -> result Z.
Variable float_pow : F -> F -> result F.

(** The [except (ValueError, ZeroDivisionError)] clause of
    [get_tick_at_sqrt_price]; any other exception escapes it. *)
Definition tick_fallback (sqrt_price_x96 : Z) (e : exn) : result Z :=
  match e with
  | ValueError | ZeroDivisionError =>
      if sqrt_price_x96 <=? 0 then Ok (-887272) else Ok 887272
  | _ => Raise e
  end.

Definition get_tick_at_sqrt_price (sqrt_price_x96 : Z) : result Z :=
  match int_truediv sqrt_price_x96 (2 ^ 96) with
  | Ok price_value =>
      if fle price_value (flit 0) then Ok (-887272)
      else
        match floor_log price_value with
        | Ok t => Ok t
        | Raise e => tick_fallback sqrt_price_x96 e
        end
  | Raise e => tick_fallback sqrt_price_x96 e
  end.

Definition get_sqrt_price_at_tick (t : Z) : result Z :=
  let t := Z.max (-887272) (Z.min t 887272) in
  match int_truediv t 2 with
  | Ok half =>
      match float_pow (flit 1.0001) half with
      | Ok power => int_of_float (fmul power (flit (inject_Z (2 ^ 96))))
      | Raise e => Raise e
      end
  | Raise e => Raise e
  end.

(** [liquidity * x] for a float [x], and [liquidity * n] for an int [n] *)
Definition num_mul_float (a : pynum F) (x : F) : result F :=
  match a with
  | PInt n => match float_of_int n with
              | Ok y => Ok (fmul y x)
              | Raise e => Raise e
              end
  | PFloat y => Ok (fmul y x)
  end.

Definition num_mul_int (a : pynum F) (n : Z) : result (pynum F) :=
  match a with
  | PInt m => Ok (PInt (m * n))
  | PFloat y => match float_of_int n with
                | Ok x => Ok (PFloat (fmul y x))
                | Raise e => Raise e
                end
  end.

Definition calculate_amount0 (lower_tick upper_tick : Z) (liquidity0 : pynum F)
    (p : @Pool F) : result Z :=
  if upper_tick <=? tick p then Ok 0
  else
    match get_sqrt_price_at_tick (Z.max lower_tick (tick p)) with
    | Raise e => Raise e
    | Ok lower_sqrt_price =>
        match get_sqrt_price_at_tick upper_tick with
        | Raise e => Raise e
        | Ok upper_sqrt_price =>
            if (lower_sqrt_price =? 0) || (upper_sqrt_price =? 0) then Ok 0
            else
              match int_truediv 1 lower_sqrt_price with
              | Raise e => Raise e
              | Ok inv_lower =>
                  match int_truediv 1 upper_sqrt_price with
                  | Raise e => Raise e
                  | Ok inv_upper =>
                      match num_mul_float liquidity0 (fsub inv_lower inv_upper) with
                      | Raise e => Raise e
                      | Ok amount0 => int_of_float amount0
                      end
                  end
              end
        end
    end.

Definition calculate_amount1 (lower_tick upper_tick : Z) (liquidity0 : pynum F)
    (p : @Pool F) : result Z :=
  if tick p <? lower_tick then Ok 0
  else
    match get_sqrt_price_at_tick lower_tick with
    | Raise e => Raise e
    | Ok lower_sqrt_price =>
        match get_sqrt_price_at_tick (Z.min upper_tick (tick p)) with
        | Raise e => Raise e
        | Ok upper_sqrt_price =>
            match num_mul_int liquidity0 (upper_sqrt_price - lower_sqrt_price) with
            | Raise e => Raise e
            | Ok amount1 => py_int amount1
            end
        end
    end.

End Converters.

(** ** The accuracy of the operations of the two converters *)

Section ConverterRounding.

Context {F : Type} `{PyFloat F}.

Variable value : F -> Q.
Variable u : Q.
Variable floor_log : F -> result Z.
Variable float_pow : F -> F -> result F.






End ConverterRounding.




(** ** The base class [Agent] of [src/agent.py] *)

Section Agents.

Context {F : Type} `{PyFloat F}.

(** An entry of [self.positions]: the dict with keys ['lower_tick'],
    ['upper_tick'] and ['liquidity'] (its ['pool'] key holds the pool the
    agent was given, the one every method is called with). *)
Record AgentPosition : Type := mkAgentPosition {
  position_lower_tick : Z;
  position_upper_tick : Z;
  position_liquidity : Z
}.

(** The attributes the position methods read or write (the balances and
    the trade history are used by [execute_swap] only). *)
Record Agent : Type := mkAgent {
  agent_name : string;
  agent_positions : list AgentPosition
}.

(** [Agent.add_position]: records the position, then calls the pool. *)
Definition agent_add_position (lower_tick upper_tick liquidity0 : Z)
    (st : Agent * @Pool F) : (Agent * @Pool F) * result unit :=
  let '(a, p) := st in
  let position := mkAgentPosition lower_tick upper_tick liquidity0 in
  let a1 := mkAgent (agent_name a) (agent_positions a ++ [position]) in
  let '(p1, r) := add_position (agent_name a) lower_tick upper_tick liquidity0 p in
  ((a1, p1), r).

(** [Agent.remove_position]: [False] on an index out of range; otherwise
    the pool is called first, and the entry is popped only when the pool
    call returns. *)
Definition agent_remove_position (position_index : Z)
    (st : Agent * @Pool F) : (Agent * @Pool F) * result bool :=
  let '(a, p) := st in
  if (position_index <? 0) || (Z.of_nat (length (agent_positions a)) <=? position_index)
  then (st, Ok false)
  else
    match agent_positions a !! Z.to_nat position_index with
    | None => (st, Ok false)
    | Some position =>
        match remove_position (agent_name a)
                (position_lower_tick position) (position_upper_tick position)
                (position_liquidity position) p with
        | (p1, Raise e) => ((a, p1), Raise e)
        | (p1, Ok _) =>
            ((mkAgent (agent_name a)
                      (delete (Z.to_nat position_index) (agent_positions a)),
              p1), Ok true)
        end
    end.

(** [for i in range(len(self.positions) - 1, -1, -1):
       self.remove_position(i, pool)], the loop that opens a rebalance in
    [LiquidityProvider.act]: called with [n = len(self.positions)]. *)
Fixpoint agent_remove_down_from (n : nat) (st : Agent * @Pool F)
    : (Agent * @Pool F) * result unit :=
  match n with
  | O => (st, Ok tt)
  | S i =>
      match agent_remove_position (Z.of_nat i) st with
      | (st1, Ok _) => agent_remove_down_from i st1
      | (st1, Raise e) => (st1, Raise e)
      end
  end.

Definition agent_remove_all (st : Agent * @Pool F)
    : (Agent * @Pool F) * result unit :=
  agent_remove_down_from (length (agent_positions (fst st))) st.

(** The liquidity the agent has on record for the range [(l, u)]. *)
Definition recorded_liquidity (a : Agent) (l u : Z) : Z :=
  foldr (fun e acc =>
           if (position_lower_tick e =? l) && (position_upper_tick e =? u)
           then position_liquidity e + acc else acc)
        0 (agent_positions a).

(** The agent's records and the pool agree: every record holds a positive
    liquidity, and under each of the agent's keys the pool holds the sum of
    the agent's records for that range. *)
Definition agent_consistent (a : Agent) (p : @Pool F) : Prop :=
  Forall (fun e => 0 < position_liquidity e) (agent_positions a) /\
  forall l u, held_liquidity (positions p) (agent_name a, l, u)
              = recorded_liquidity a l u.

End Agents.

(** ** The simulation driver of [src/simulator.py] *)

Section Simulation.

Context {F : Type} `{PyFloat F}.

(** [abs(x)] on a float. *)
Variable float_abs : F -> F.

(** The agents are any objects with two balances and an [act] method: the
    driver reads [agent.token0_balance] and [agent.token1_balance] and
    calls [agent.act(self.pool, self.step_count)], which may change the
    agent and the pool in place, and may raise.  The [world] is what an
    [act] method reaches besides its agent and the pool: the state of the
    module-level random generator, which the strategies of [agent.py]
    draw from. *)
Variable agent : Type.
Variable world : Type.
Variable token0_balance : agent -> pynum F.
Variable token1_balance : agent -> pynum F.
Variable act :
  agent -> @Pool F -> Z -> world -> ((agent * @Pool F) * world) * result unit.

(** The attributes of [Simulator] that [run] reads or writes
    ([initial_price] is only stored). *)
Record Simulator : Type := mkSimulator {
  sim_pool : @Pool F;
  sim_agents : list agent;
  price_history : list F;
  liquidity_history : list F;
  volume_history : list (pynum F);
  step_count : Z
}.

(** [a - b], [abs(a)], [x + a] and [a + x] on Python numbers: an int that
    meets a float is converted first, which raises when it is too large. *)
Definition num_sub (a b : pynum F) : result (pynum F) :=
  match a, b with
  | PInt m, PInt n => Ok (PInt (m - n))
  | PInt m, PFloat y =>
      match float_of_int m with
      | Ok x => Ok (PFloat (fsub x y))
      | Raise e => Raise e
      end
  | PFloat x, PInt n =>
      match float_of_int n with
      | Ok y => Ok (PFloat (fsub x y))
      | Raise e => Raise e
      end
  | PFloat x, PFloat y => Ok (PFloat (fsub x y))
  end.

Definition num_abs (a : pynum F) : pynum F :=
  match a with
  | PInt n => PInt (Z.abs n)
  | PFloat x => PFloat (float_abs x)
  end.

Definition float_add_num (x : F) (a : pynum F) : result F :=
  match a with
  | PInt n => match float_of_int n with
              | Ok y => Ok (fadd x y)
              | Raise e => Raise e
              end
  | PFloat y => Ok (fadd x y)
  end.

Definition num_add_float (a : pynum F) (x : F) : result F :=
  match a with
  | PInt n => match float_of_int n with
              | Ok y => Ok (fadd y x)
              | Raise e => Raise e
              end
  | PFloat y => Ok (fadd y x)
  end.

(** [abs(after - before)] *)
Definition balance_diff (after before : pynum F) : result (pynum F) :=
  match num_sub after before with
  | Ok d => Ok (num_abs d)
  | Raise e => Raise e
  end.

(** [token0_diff * price + token1_diff] for one agent's turn. *)
Definition turn_volume (price : F) (token0_before token1_before : pynum F)
    (a : agent) : result F :=
  match balance_diff (token0_balance a) token0_before with
  | Raise e => Raise e
  | Ok token0_diff =>
      match balance_diff (token1_balance a) token1_before with
      | Raise e => Raise e
      | Ok token1_diff =>
          match num_mul_float token0_diff price with
          | Raise e => Raise e
          | Ok value0 => float_add_num value0 token1_diff
          end
      end
  end.

(** The loop over [self.agents] of one step.  Returns the agents, the
    pool and the world as the loop leaves them, and the step volume. *)
Fixpoint act_all (price : F) (count : Z) (todo : list agent) (pool : @Pool F)
    (w : world) (step_volume : pynum F)
    : ((list agent * @Pool F) * world) * result (pynum F) :=
  match todo with
  | [] => ((([], pool), w), Ok step_volume)
  | a :: rest =>
      let token0_before := token0_balance a in
      let token1_before := token1_balance a in
      match act a pool count w with
      | (((a1, pool1), w1), Raise e) => (((a1 :: rest, pool1), w1), Raise e)
      | (((a1, pool1), w1), Ok _) =>
          match turn_volume price token0_before token1_before a1 with
          | Raise e => (((a1 :: rest, pool1), w1), Raise e)
          | Ok volume =>
              match num_add_float step_volume volume with
              | Raise e => (((a1 :: rest, pool1), w1), Raise e)
              | Ok total =>
                  let '(((rest1, pool2), w2), r) :=
                    act_all price count rest pool1 w1 (PFloat total) in
                  (((a1 :: rest1, pool2), w2), r)
              end
          end
      end
  end.

(** One iteration of the loop of [run], for the loop index [step]. *)
Definition run_step (step : Z) (s : Simulator) (w : world)
    : (Simulator * world) * result unit :=
  let s1 := mkSimulator (sim_pool s) (sim_agents s) (price_history s)
              (liquidity_history s) (volume_history s) (step_count s + 1) in
  match int_truediv (sqrt_price_x96 (sim_pool s1)) (2 ^ 96) with
  | Raise e => ((s1, w), Raise e)
  | Ok root =>
      match fsquare root with
      | Raise e => ((s1, w), Raise e)
      | Ok price0 =>
          let price := py_max (flit 0.01) price0 in
          let pool1 := set_liquidity (Z.max 0 (liquidity (sim_pool s1)))
                         (sim_pool s1) in
          let s2 := mkSimulator pool1 (sim_agents s1)
                      (price_history s1 ++ [price])
                      (liquidity_history s1) (volume_history s1)
                      (step_count s1) in
          match int_truediv (liquidity pool1) (10 ^ 9) with
          | Raise e => ((s2, w), Raise e)
          | Ok scaled =>
              let '(((agents1, pool2), w1), r) :=
                act_all price (step_count s2) (sim_agents s2) pool1 w
                  (PInt 0) in
              let s3 := mkSimulator pool2 agents1 (price_history s2)
                          (liquidity_history s2 ++ [scaled])
                          (volume_history s2) (step_count s2) in
              match r with
              | Raise e => ((s3, w1), Raise e)
              | Ok step_volume =>
                  let s4 := mkSimulator pool2 agents1 (price_history s3)
                              (liquidity_history s3)
                              (volume_history s3 ++ [step_volume])
                              (step_count s3) in
                  if (step + 1) mod 10 =? 0 then
                    (* the progress line prints [self.pool.liquidity / 10**9] *)
                    match int_truediv (liquidity pool2) (10 ^ 9) with
                    | Raise e => ((s4, w1), Raise e)
                    | Ok _ => ((s4, w1), Ok tt)
                    end
                  else ((s4, w1), Ok tt)
              end
          end
      end
  end.

(** [run(steps)]: [for step in range(steps)]. *)
Fixpoint run_from (n : nat) (step : Z) (s : Simulator) (w : world)
    : (Simulator * world) * result unit :=
  match n with
  | O => ((s, w), Ok tt)
  | S n' =>
      match run_step step s w with
      | ((s1, w1), Ok _) => run_from n' (step + 1) s1 w1
      | ((s1, w1), Raise e) => ((s1, w1), Raise e)
      end
  end.

Definition run (steps : Z) (s : Simulator) (w : world)
    : (Simulator * world) * result unit :=
  run_from (Z.to_nat steps) 0 s w.

End Simulation.

Arguments mkSimulator {F agent} _ _ _ _ _ _.
Arguments sim_pool {F agent} _.
Arguments sim_agents {F agent} _.
Arguments price_history {F agent} _.
Arguments liquidity_history {F agent} _.
Arguments volume_history {F agent} _.
Arguments step_count {F agent} _.

(** ** Example agents and simulators *)

Module AgentExamples.

Import Binary64 Examples.

(** An agent named "LP" with nothing on record, and the same agent with the
    position of [one_position_pool] on record. *)
Definition new_agent : Agent := mkAgent "LP" [].

Definition lp_agent : Agent :=
  mkAgent "LP" [mkAgentPosition 79980 80100 (10 ^ 13)].

(** An [act] that adds 5 units of liquidity over [79980, 80100) at every
    turn and draws nothing from the random generator; the balances it never
    touches. *)
Definition adding_act (a : Agent) (p : @Pool float) (count : Z) (w : unit)
    : ((Agent * @Pool float) * unit) * result unit :=
  let '(st, r) := agent_add_position 79980 80100 5 (a, p) in ((st, w), r).

Definition fixed_balance (a : Agent) : pynum float := PInt 1000.

(** A simulator over [one_position_pool] with no agent, and one over
    [fresh_pool] with the agent "LP". *)
Definition empty_simulator : Simulator Agent :=
  mkSimulator one_position_pool [] [] [] [] 0.

Definition lp_simulator : Simulator Agent :=
  mkSimulator fresh_pool [new_agent] [] [] [] 0.

End AgentExamples.

(** * Properties *)

Section LedgerFacts.

Context {F : Type} `{PyFloat F}.
Implicit Types (p : @Pool F) (m : gmap Z Z).

(** ** The tick ledger *)

Lemma ledger_sum_empty : ledger_sum ∅ = 0.
Proof. unfold ledger_sum. by rewrite map_fold_empty. Qed.

Lemma ledger_sum_insert_fresh m k v :
  m !! k = None -> ledger_sum (<[k := v]> m) = v + ledger_sum m.
Proof.
  intros Hk. unfold ledger_sum.
  rewrite map_fold_insert_L; [done | intros; lia | done].
Qed.

Lemma ledger_sum_insert m k v :
  ledger_sum (<[k := v]> m) = ledger_sum m - tick_delta m k + v.
Proof.
  unfold tick_delta. destruct (m !! k) as [d|] eqn:Hk; simpl.
  - rewrite <- (insert_delete_eq m k v).
    rewrite ledger_sum_insert_fresh by apply lookup_delete_eq.
    rewrite <- (insert_id m k d Hk) at 2.
    rewrite <- (insert_delete_eq m k d).
    rewrite ledger_sum_insert_fresh by apply lookup_delete_eq. lia.
  - rewrite ledger_sum_insert_fresh by done. lia.
Qed.

Lemma tick_delta_insert m k v t :
  tick_delta (<[k := v]> m) t = if decide (k = t) then v else tick_delta m t.
Proof. unfold tick_delta. rewrite lookup_insert. by case_decide. Qed.

Lemma tick_delta_ensure m k t : tick_delta (ensure_tick k m) t = tick_delta m t.
Proof.
  unfold ensure_tick. destruct (m !! k) eqn:Hk; [done|].
  rewrite tick_delta_insert. case_decide; [|done].
  subst. unfold tick_delta. by rewrite Hk.
Qed.

Lemma tick_delta_adjust m k d t :
  tick_delta (adjust_tick k d m) t =
  if decide (k = t) then tick_delta m k + d else tick_delta m t.
Proof. unfold adjust_tick. apply tick_delta_insert. Qed.

Lemma ledger_sum_ensure m k : ledger_sum (ensure_tick k m) = ledger_sum m.
Proof.
  unfold ensure_tick. destruct (m !! k) eqn:Hk; [done|].
  by rewrite ledger_sum_insert_fresh.
Qed.

Lemma ledger_sum_adjust m k d : ledger_sum (adjust_tick k d m) = ledger_sum m + d.
Proof. unfold adjust_tick. rewrite ledger_sum_insert. lia. Qed.

Lemma ensure_tick_present m k : is_Some (ensure_tick k m !! k).
Proof.
  unfold ensure_tick. destruct (m !! k) eqn:Hk; [by rewrite Hk|].
  rewrite lookup_insert_eq. eauto.
Qed.

Lemma ensure_tick_keeps m k t : is_Some (m !! t) -> is_Some (ensure_tick k m !! t).
Proof.
  unfold ensure_tick. destruct (m !! k) eqn:Hk; [done|].
  intros Ht. rewrite lookup_insert. by case_decide.
Qed.

Lemma adjust_tick_keeps m k d t : is_Some (m !! t) -> is_Some (adjust_tick k d m !! t).
Proof.
  unfold adjust_tick. intros Ht. rewrite lookup_insert. by case_decide.
Qed.

Lemma insert_keeps m k v t : is_Some (m !! t) -> is_Some (<[k := v]> m !! t).
Proof. intros Ht. rewrite lookup_insert. by case_decide. Qed.

(** ** [add_position], field by field *)

(** A call raises at an alignment and leaves the pool as it was, or it
    returns, having stored the position under the two aligned ticks. *)
Lemma add_position_cases o l u a p :
  (exists e, add_position o l u a p = (p, Raise e)) \/
  (exists l' u', align l (tick_spacing p) = Ok l' /\
                 align u (tick_spacing p) = Ok u' /\
                 add_position o l u a p = (store_position o l' u' a p, Ok tt)).
Proof.
  unfold add_position.
  destruct (align l (tick_spacing p)) as [l'|e]; [|by left; eexists].
  destruct (align u (tick_spacing p)) as [u'|e]; [|by left; eexists].
  right. by exists l', u'.
Qed.

Lemma add_position_aligns o l u a p l' u' :
  align l (tick_spacing p) = Ok l' -> align u (tick_spacing p) = Ok u' ->
  add_position o l u a p = (store_position o l' u' a p, Ok tt).
Proof. intros Hl Hu. unfold add_position. by rewrite Hl, Hu. Qed.

Lemma add_position_raises o l u a p e :
  snd (add_position o l u a p) = Raise e -> fst (add_position o l u a p) = p.
Proof.
  destruct (add_position_cases o l u a p) as [[e' ->]|(l' & u' & _ & _ & ->)];
    done.
Qed.

Lemma store_position_frame o l u a p :
  let p' := store_position o l u a p in
  fee p' = fee p /\ tick_spacing p' = tick_spacing p /\
  sqrt_price_x96 p' = sqrt_price_x96 p /\ tick p' = tick p.
Proof.
  unfold store_position. cbv zeta. unfold in_range.
  destruct (positions p !! _); simpl;
    match goal with |- context [if ?c then _ else _] => destruct c end; done.
Qed.

Lemma add_position_frame o l u a p :
  let p' := fst (add_position o l u a p) in
  fee p' = fee p /\ tick_spacing p' = tick_spacing p /\
  sqrt_price_x96 p' = sqrt_price_x96 p /\ tick p' = tick p.
Proof.
  destruct (add_position_cases o l u a p) as [[e ->]|(l' & u' & _ & _ & ->)];
    [done|]. apply store_position_frame.
Qed.

Lemma store_position_positions o l u a p :
  positions (store_position o l u a p) =
  <[(o, l, u) := match positions p !! (o, l, u) with
                 | Some held => held + a
                 | None => a
                 end]> (positions p).
Proof.
  unfold store_position. cbv zeta. unfold in_range.
  destruct (positions p !! _); simpl;
    match goal with |- context [if ?c then _ else _] => destruct c end; done.
Qed.

Lemma store_position_ticks o l u a p :
  ticks (store_position o l u a p) =
  adjust_tick u (- a) (adjust_tick l a (ensure_tick u (ensure_tick l (ticks p)))).
Proof.
  unfold store_position. cbv zeta. unfold in_range.
  destruct (positions p !! _); simpl;
    match goal with |- context [if ?c then _ else _] => destruct c end; done.
Qed.

Lemma store_position_liquidity o l u a p :
  liquidity (store_position o l u a p) =
  if in_range l u p then liquidity p + a else liquidity p.
Proof.
  unfold store_position. cbv zeta. unfold in_range.
  destruct (positions p !! _); simpl;
    match goal with |- context [if ?c then _ else _] => destruct c end; done.
Qed.

End LedgerFacts.

Section LedgerInvariants.

Context {F : Type} `{PyFloat F}.
Implicit Types (p : @Pool F) (m : gmap Z Z).

(** ** [remove_position], case by case *)

Lemma remove_position_absent o l u a p :
  positions p !! (o, l, u) = None ->
  remove_position o l u a p = (p, Raise ValueError).
Proof. intros Hk. unfold remove_position. by rewrite Hk. Qed.

Lemma remove_position_short o l u a p held :
  positions p !! (o, l, u) = Some held -> held < a ->
  remove_position o l u a p = (p, Raise ValueError).
Proof.
  intros Hk Hlt. unfold remove_position. rewrite Hk.
  destruct (held <? a) eqn:E; [done | lia].
Qed.

(** The pool after a removal that passes the guard and finds both ticks. *)
Lemma remove_position_done o l u a p held :
  positions p !! (o, l, u) = Some held -> a <= held ->
  is_Some (ticks p !! l) -> is_Some (ticks p !! u) ->
  let p' := fst (remove_position o l u a p) in
  snd (remove_position o l u a p) = Ok tt /\
  positions p' =
    (if held - a =? 0 then delete (o, l, u) (positions p)
     else <[(o, l, u) := held - a]> (positions p)) /\
  ticks p' = adjust_tick u a (adjust_tick l (- a) (ticks p)) /\
  liquidity p' = (if in_range l u p then liquidity p - a else liquidity p) /\
  fee p' = fee p /\ tick_spacing p' = tick_spacing p /\
  sqrt_price_x96 p' = sqrt_price_x96 p /\ tick p' = tick p.
Proof.
  intros Hk Hle [dl Hl] Hu. unfold remove_position. rewrite Hk.
  destruct (held <? a) eqn:E; [lia|]. cbv zeta. simpl. rewrite Hl. simpl.
  assert (Hu' : is_Some (<[l := dl - a]> (ticks p) !! u)) by by apply insert_keeps.
  destruct Hu' as [du Hu']. rewrite Hu'. unfold in_range. simpl.
  assert (Ht : adjust_tick u a (adjust_tick l (- a) (ticks p))
               = <[u := du + a]> (<[l := dl - a]> (ticks p))).
  { assert (H1 : adjust_tick l (- a) (ticks p) = <[l := dl - a]> (ticks p)).
    { unfold adjust_tick, tick_delta. rewrite Hl. simpl.
      by replace (dl + - a) with (dl - a) by lia. }
    rewrite H1. unfold adjust_tick, tick_delta. by rewrite Hu'. }
  rewrite Ht.
  match goal with |- context [if ?c then _ else _] => destruct c end; done.
Qed.

Lemma remove_position_frame o l u a p :
  let p' := fst (remove_position o l u a p) in
  fee p' = fee p /\ tick_spacing p' = tick_spacing p /\
  sqrt_price_x96 p' = sqrt_price_x96 p /\ tick p' = tick p.
Proof.
  unfold remove_position.
  destruct (positions p !! _) as [held|]; [|done].
  destruct (held <? a); [done|]. cbv zeta. simpl.
  destruct (ticks p !! l); [|done]. simpl.
  destruct (_ !! u); [|done]. unfold in_range. simpl.
  match goal with |- context [if ?c then _ else _] => destruct c end; done.
Qed.

(** ** Alignment *)

(** What [align] returns is a multiple of the spacing. *)
Lemma align_multiple t s t' : align t s = Ok t' -> t' mod s = 0.
Proof.
  unfold align. destruct (int_truediv t s) as [q|e]; [|done].
  destruct (math_floor q) as [k|e]; [|done].
  intros [= <-]. apply Z_mod_mult.
Qed.

(** A tick that is no multiple of the spacing is not what [align] returns. *)
Lemma align_moves t s t' : t mod s <> 0 -> align t s = Ok t' -> t' <> t.
Proof. intros Hm Hal ->. by apply align_multiple in Hal. Qed.

(** ** Invariants kept by the two ledger operations *)

Lemma add_position_sum o l u a p :
  ledger_sum (ticks (fst (add_position o l u a p))) = ledger_sum (ticks p).
Proof.
  destruct (add_position_cases o l u a p) as [[e ->]|(l' & u' & _ & _ & ->)];
    [done|]. simpl. rewrite store_position_ticks.
  rewrite !ledger_sum_adjust, !ledger_sum_ensure. lia.
Qed.

Lemma add_position_have_ticks o l u a p :
  positions_have_ticks p -> positions_have_ticks (fst (add_position o l u a p)).
Proof.
  intros Hinv.
  destruct (add_position_cases o l u a p) as [[e ->]|(l1 & u1 & _ & _ & ->)];
    [done|]. simpl.
  intros o' l' u' x. rewrite store_position_positions, store_position_ticks.
  rewrite lookup_insert. case_decide as Hkey.
  - injection Hkey as <- <- <-. intros _. split.
    + apply adjust_tick_keeps, adjust_tick_keeps, ensure_tick_keeps,
        ensure_tick_present.
    + apply adjust_tick_keeps, adjust_tick_keeps, ensure_tick_present.
  - intros Hx. destruct (Hinv _ _ _ _ Hx) as [Hl Hu].
    split; by apply adjust_tick_keeps, adjust_tick_keeps, ensure_tick_keeps,
      ensure_tick_keeps.
Qed.

Lemma add_position_aligned o l u a p :
  keys_aligned p -> keys_aligned (fst (add_position o l u a p)).
Proof.
  intros Hinv.
  destruct (add_position_cases o l u a p) as [[e ->]|(l1 & u1 & Hl & Hu & ->)];
    [done|]. simpl.
  intros o' l' u' x. rewrite store_position_positions.
  destruct (store_position_frame o l1 u1 a p) as (_ & -> & _).
  rewrite lookup_insert. case_decide as Hkey.
  - injection Hkey as <- <- <-. intros _.
    split; eapply align_multiple; eassumption.
  - apply Hinv.
Qed.

Lemma add_position_positive o l u a p :
  0 < a -> positions_positive p ->
  positions_positive (fst (add_position o l u a p)).
Proof.
  intros Ha Hinv.
  destruct (add_position_cases o l u a p) as [[e ->]|(l1 & u1 & _ & _ & ->)];
    [done|]. simpl.
  intros k x. rewrite store_position_positions.
  rewrite lookup_insert. case_decide as Hkey.
  - intros [= <-]. destruct (positions p !! _) as [held|] eqn:Hh; [|done].
    apply Hinv in Hh. lia.
  - apply Hinv.
Qed.

(** A removal either raises before it writes, or finds both ticks. *)
Lemma remove_position_cases o l u a p :
  positions_have_ticks p ->
  remove_position o l u a p = (p, Raise ValueError) \/
  exists held, positions p !! (o, l, u) = Some held /\ a <= held /\
               is_Some (ticks p !! l) /\ is_Some (ticks p !! u).
Proof.
  intros Hinv. destruct (positions p !! (o, l, u)) as [held|] eqn:Hk.
  - destruct (Z_lt_le_dec held a).
    + left. by eapply remove_position_short.
    + right. exists held. destruct (Hinv _ _ _ _ Hk). by repeat split.
  - left. by apply remove_position_absent.
Qed.

Lemma remove_position_sum o l u a p :
  positions_have_ticks p ->
  ledger_sum (ticks (fst (remove_position o l u a p))) = ledger_sum (ticks p).
Proof.
  intros Hinv.
  destruct (remove_position_cases o l u a p Hinv) as [-> | (held & Hk & Hle & Hl & Hu)];
    [done|].
  destruct (remove_position_done o l u a p held Hk Hle Hl Hu) as (_ & _ & -> & _).
  rewrite !ledger_sum_adjust. lia.
Qed.

Lemma remove_position_have_ticks o l u a p :
  positions_have_ticks p -> positions_have_ticks (fst (remove_position o l u a p)).
Proof.
  intros Hinv.
  destruct (remove_position_cases o l u a p Hinv) as [-> | (held & Hk & Hle & Hl & Hu)];
    [done|].
  destruct (remove_position_done o l u a p held Hk Hle Hl Hu) as (_ & Hpos & Hticks & _).
  intros o' l' u' x. rewrite Hpos, Hticks. intros Hx.
  assert (Hin : is_Some (positions p !! (o', l', u'))).
  { destruct (held - a =? 0).
    - apply lookup_delete_Some in Hx as [_ Hx]. eauto.
    - rewrite lookup_insert in Hx. case_decide as Hkey; [|eauto].
      rewrite <- Hkey, Hk. eauto. }
  destruct Hin as [y Hy]. destruct (Hinv _ _ _ _ Hy).
  split; by apply adjust_tick_keeps, adjust_tick_keeps.
Qed.

Lemma remove_position_aligned o l u a p :
  positions_have_ticks p -> keys_aligned p ->
  keys_aligned (fst (remove_position o l u a p)).
Proof.
  intros Hinv Hal.
  destruct (remove_position_cases o l u a p Hinv) as [-> | (held & Hk & Hle & Hl & Hu)];
    [done|].
  destruct (remove_position_done o l u a p held Hk Hle Hl Hu)
    as (_ & Hpos & _ & _ & _ & Hsp & _).
  intros o' l' u' x. rewrite Hpos, Hsp. intros Hx.
  destruct (held - a =? 0).
  - apply lookup_delete_Some in Hx as [_ Hx]. eauto.
  - rewrite lookup_insert in Hx. case_decide as Hkey; [|eauto].
    injection Hkey as <- <- <-. eauto.
Qed.

Lemma remove_position_positive o l u a p :
  positions_have_ticks p -> positions_positive p ->
  positions_positive (fst (remove_position o l u a p)).
Proof.
  intros Hinv Hpp.
  destruct (remove_position_cases o l u a p Hinv) as [-> | (held & Hk & Hle & Hl & Hu)];
    [done|].
  destruct (remove_position_done o l u a p held Hk Hle Hl Hu) as (_ & Hpos & _).
  intros k x. rewrite Hpos. intros Hx.
  destruct (held - a =? 0) eqn:E.
  - apply lookup_delete_Some in Hx as [_ Hx]. eauto.
  - rewrite lookup_insert in Hx. case_decide as Hkey; [|eauto].
    injection Hx as <-. apply Z.eqb_neq in E. lia.
Qed.

End LedgerInvariants.

Section SwapFacts.

Context {F : Type} `{PyFloat F}.
Variable get_tick : Z -> result Z.
Implicit Types (p : @Pool F).


(** ** Tick crossing *)

Lemma cross_tick_frame t p :
  fee (cross_tick t p) = fee p /\
  tick_spacing (cross_tick t p) = tick_spacing p /\
  sqrt_price_x96 (cross_tick t p) = sqrt_price_x96 p /\
  tick (cross_tick t p) = tick p /\
  positions (cross_tick t p) = positions p /\
  ticks (cross_tick t p) = ticks p.
Proof.
  unfold cross_tick. cbv zeta.
  destruct (tick p <? t); [done|]. by destruct (liquidity p <? _).
Qed.

(** The liquidity [cross_tick] leaves, by the branch it takes. *)
Lemma cross_tick_liquidity t p :
  liquidity (cross_tick t p) =
  if tick p <? t
  then Z.max 0 (liquidity p + tick_delta (ticks p) t)
  else if liquidity p <? tick_delta (ticks p) t then 0
  else Z.max 0 (liquidity p - tick_delta (ticks p) t).
Proof.
  unfold cross_tick. cbv zeta.
  destruct (tick p <? t); [done|]. by destruct (liquidity p <? _).
Qed.

Lemma cross_tick_nonneg t p : 0 <= liquidity (cross_tick t p).
Proof.
  rewrite cross_tick_liquidity.
  destruct (tick p <? t); [lia|]. destruct (liquidity p <? _); lia.
Qed.

Lemma cross_loop_frame z old ts p :
  fee (cross_loop z old ts p) = fee p /\
  tick_spacing (cross_loop z old ts p) = tick_spacing p /\
  sqrt_price_x96 (cross_loop z old ts p) = sqrt_price_x96 p /\
  tick (cross_loop z old ts p) = tick p /\
  positions (cross_loop z old ts p) = positions p /\
  ticks (cross_loop z old ts p) = ticks p.
Proof.
  revert p. induction ts as [|t ts IH]; intros p; simpl; [done|].
  destruct (is_crossed z old t p); [|apply IH].
  destruct (IH (cross_tick t p)) as (-> & -> & -> & -> & -> & ->).
  apply cross_tick_frame.
Qed.

Lemma cross_loop_nonneg z old ts p :
  0 <= liquidity p -> 0 <= liquidity (cross_loop z old ts p).
Proof.
  revert p. induction ts as [|t ts IH]; intros p Hp; simpl; [done|].
  apply IH. destruct (is_crossed z old t p); [apply cross_tick_nonneg | done].
Qed.

Lemma cross_loop_states_nonneg z old ts p :
  Forall (fun q => 0 <= liquidity q) (cross_loop_states z old ts p).
Proof.
  revert p. induction ts as [|t ts IH]; intros p; simpl; [constructor|].
  destruct (is_crossed z old t p); [|apply IH].
  constructor; [apply cross_tick_nonneg | apply IH].
Qed.

(** The loop ends in the last state it went through. *)
Lemma cross_loop_last z old ts p :
  cross_loop z old ts p = default p (last (cross_loop_states z old ts p)).
Proof.
  revert p. induction ts as [|t ts IH]; intros p; simpl; [done|].
  destruct (is_crossed z old t p); [|apply IH].
  rewrite IH. generalize (cross_loop_states z old ts (cross_tick t p)).
  intros [|q l]; [done|]. rewrite last_cons_cons.
  by destruct (last (q :: l)) eqn:E; [|apply last_None in E].
Qed.

(** ** The swap, phase by phase *)

Ltac step_match :=
  match goal with
  | |- context [match ?r with Ok _ => _ | Raise _ => _ end] => destruct r; simpl
  | |- context [if ?c then _ else _] => destruct c; simpl
  end.

(** Repricing writes the square-root price only. *)
Lemma swap_reprice_frame z a p :
  let p' := fst (swap_reprice z a p) in
  fee p' = fee p /\ tick_spacing p' = tick_spacing p /\
  liquidity p' = liquidity p /\ tick p' = tick p /\
  positions p' = positions p /\ ticks p' = ticks p.
Proof.
  unfold swap_reprice, bind, lift, read, write, ret. simpl.
  repeat (first [done | step_match]).
Qed.

Lemma swap_retick_unfold z p :
  swap_retick get_tick z p =
  match get_tick (sqrt_price_x96 p) with
  | Ok t =>
      (if tick p =? t then set_tick t p
       else cross_loop z (tick p) (sorted_ticks z (set_tick t p)) (set_tick t p),
       Ok (tick p))
  | Raise e => (p, Raise e)
  end.
Proof.
  unfold swap_retick, bind, lift, read, write, ret. simpl.
  destruct (get_tick _); [|done]. simpl.
  by destruct (tick p =? a).
Qed.

Lemma swap_simple_unfold z a p :
  swap_simple get_tick z a p =
  if num_le0 a || (liquidity p <=? 0) then (p, Ok (PInt 0, PInt 0))
  else
    match swap_reprice z a p with
    | (p1, Ok (_, _, token_out)) =>
        match swap_retick get_tick z p1 with
        | (p2, Ok _) =>
            match py_int token_out with
            | Ok out =>
                (p2, Ok (if z then (a, PInt (- out)) else (PInt (- out), a)))
            | Raise e => (p2, Raise e)
            end
        | (p2, Raise e) => (p2, Raise e)
        end
    | (p1, Raise e) => (p1, Raise e)
    end.
Proof.
  unfold swap_simple. unfold bind at 1. unfold read at 1. simpl.
  destruct (num_le0 a || (liquidity p <=? 0)); [done|].
  unfold bind at 1. destruct (swap_reprice z a p) as [p1 [[[sp np] out]|e]]; [|done].
  unfold bind at 1. destruct (swap_retick get_tick z p1) as [p2 [old|e]]; [|done].
  unfold bind, lift, ret. destruct (py_int out); [|done]. by destruct z.
Qed.

Lemma swap_retick_frame z p :
  let p' := fst (swap_retick get_tick z p) in
  fee p' = fee p /\ tick_spacing p' = tick_spacing p /\
  sqrt_price_x96 p' = sqrt_price_x96 p /\
  positions p' = positions p /\ ticks p' = ticks p.
Proof.
  rewrite swap_retick_unfold. destruct (get_tick _); [|done].
  simpl. destruct (tick p =? a); [done|].
  destruct (cross_loop_frame z (tick p) (sorted_ticks z (set_tick a p)) (set_tick a p))
    as (-> & -> & -> & _ & -> & ->). done.
Qed.

Lemma swap_retick_nonneg z p :
  0 <= liquidity p -> 0 <= liquidity (fst (swap_retick get_tick z p)).
Proof.
  intros Hp. rewrite swap_retick_unfold. destruct (get_tick _); [|done].
  simpl. destruct (tick p =? a); [done|]. by apply cross_loop_nonneg.
Qed.

(** The pool a swap leaves is the pool its re-ticking leaves. *)
Lemma swap_simple_state z a p :
  fst (swap_simple get_tick z a p) =
  if num_le0 a || (liquidity p <=? 0) then p
  else
    match swap_reprice z a p with
    | (p1, Ok _) => fst (swap_retick get_tick z p1)
    | (p1, Raise _) => p1
    end.
Proof.
  rewrite swap_simple_unfold.
  destruct (num_le0 a || (liquidity p <=? 0)); [done|].
  destruct (swap_reprice z a p) as [p1 [[[sp np] out]|e]]; [|done].
  destruct (swap_retick get_tick z p1) as [p2 [old|e]]; [|done].
  by destruct (py_int out).
Qed.

Lemma swap_simple_frame z a p :
  let p' := fst (swap_simple get_tick z a p) in
  fee p' = fee p /\ tick_spacing p' = tick_spacing p /\
  positions p' = positions p /\ ticks p' = ticks p.
Proof.
  cbv zeta. rewrite swap_simple_state.
  destruct (num_le0 a || (liquidity p <=? 0)); [done|].
  pose proof (swap_reprice_frame z a p) as Hr. cbv zeta in Hr.
  destruct (swap_reprice z a p) as [p1 [r|e]]; simpl in *.
  - destruct (swap_retick_frame z p1) as (-> & -> & _ & -> & ->).
    by destruct Hr as (-> & -> & _ & _ & -> & ->).
  - by destruct Hr as (-> & -> & _ & _ & -> & ->).
Qed.

Lemma swap_simple_nonneg z a p :
  0 <= liquidity p -> 0 <= liquidity (fst (swap_simple get_tick z a p)).
Proof.
  intros Hp. rewrite swap_simple_state.
  destruct (num_le0 a || (liquidity p <=? 0)); [done|].
  pose proof (swap_reprice_frame z a p) as Hr. cbv zeta in Hr.
  destruct (swap_reprice z a p) as [p1 [r|e]]; simpl in *.
  - apply swap_retick_nonneg. destruct Hr as (_ & _ & -> & _). done.
  - destruct Hr as (_ & _ & -> & _). done.
Qed.

End SwapFacts.

Section Reachable.

Context {F : Type} `{PyFloat F}.
Variable get_tick : Z -> result Z.
Implicit Types (p : @Pool F).

Lemma init_fresh fee0 spacing s p :
  init get_tick fee0 spacing s = Ok p ->
  positions p = ∅ /\ ticks p = ∅ /\ liquidity p = 0 /\
  tick_spacing p = spacing /\ sqrt_price_x96 p = s /\ fee p = fee0.
Proof.
  unfold init. destruct (get_tick s); [|done]. by intros [= <-].
Qed.

Lemma ledger_states_invariant (I : Pool -> Prop) (allowed : ledger_op -> Prop) :
  (forall op p, allowed op -> I p -> I (apply_op op p)) ->
  forall ops p, Forall allowed ops -> I p -> Forall I (ledger_states ops p).
Proof.
  intros Hstep ops. induction ops as [|op ops IH]; intros p Hall Hp; simpl.
  - constructor.
  - inversion Hall; subst. constructor; [|apply IH]; auto.
Qed.

Lemma reachable_have_ticks p : reachable get_tick p -> positions_have_ticks p.
Proof.
  induction 1 as [fee0 sp s p Hi| | |z a p Hr IH].
  - apply init_fresh in Hi as (Hp & _). intros o l u x. by rewrite Hp.
  - by apply add_position_have_ticks.
  - by apply remove_position_have_ticks.
  - destruct (swap_simple_frame get_tick z a p) as (_ & _ & Hp & Ht).
    intros o l u x. unfold swap. rewrite Hp, Ht. apply IH.
Qed.

Lemma reachable_aligned p : reachable get_tick p -> keys_aligned p.
Proof.
  induction 1 as [fee0 sp s p Hi| |o l u a p Hr IH|z a p Hr IH].
  - apply init_fresh in Hi as (Hp & _). intros o l u x. by rewrite Hp.
  - by apply add_position_aligned.
  - apply remove_position_aligned; [by apply reachable_have_ticks | done].
  - destruct (swap_simple_frame get_tick z a p) as (_ & Hs & Hp & _).
    intros o l u x. unfold swap. rewrite Hp, Hs. apply IH.
Qed.

Lemma reachable_sum p : reachable get_tick p -> ledger_sum (ticks p) = 0.
Proof.
  induction 1 as [fee0 sp s p Hi| |o l u a p Hr IH|z a p Hr IH].
  - apply init_fresh in Hi as (_ & -> & _). apply ledger_sum_empty.
  - by rewrite add_position_sum.
  - rewrite remove_position_sum; [done | by apply reachable_have_ticks].
  - destruct (swap_simple_frame get_tick z a p) as (_ & _ & _ & Ht).
    unfold swap. by rewrite Ht.
Qed.

(** On a pool a run can reach, [remove_position] never stops half-way on a
    missing tick entry: it returns or raises ValueError. *)
Lemma remove_position_no_KeyError o l u a p :
  reachable get_tick p -> snd (remove_position o l u a p) <> Raise KeyError.
Proof.
  intros Hr. apply reachable_have_ticks in Hr.
  destruct (remove_position_cases o l u a p Hr) as [-> | (held & Hk & Hle & Hl & Hu)];
    [done|].
  destruct (remove_position_done o l u a p held Hk Hle Hl Hu) as (-> & _). done.
Qed.

End Reachable.

Section LedgerClaims.

Context {F : Type} `{PyFloat F}.
Variable get_tick : Z -> result Z.
Implicit Types (p : @Pool F).

(** C2. Starting from a fresh pool, after every operation of every
    sequence of addPosition and removePosition calls (whether the call
    returns or raises), the net deltas stored in the tick ledger sum to
    exactly 0; so they do in the fresh pool itself. *)
Theorem zero_sum_ledger fee0 spacing s p0 (ops : list ledger_op) :
  init get_tick fee0 spacing s = Ok p0 ->
  Forall (fun p => ledger_sum (ticks p) = 0) (p0 :: ledger_states ops p0).
Proof.
  intros Hi. apply init_fresh in Hi as (Hp & Ht & _).
  assert (Hinv : positions_have_ticks p0 /\ ledger_sum (ticks p0) = 0).
  { split; [intros o l u x; by rewrite Hp | rewrite Ht; apply ledger_sum_empty]. }
  constructor; [apply Hinv|].
  eapply Forall_impl.
  - apply (ledger_states_invariant
             (fun p => positions_have_ticks p /\ ledger_sum (ticks p) = 0)
             (fun _ => True)); [|by apply Forall_true|exact Hinv].
    intros [o l u a|o l u a] p _ [Hpt Hsum]; simpl; split.
    + by apply add_position_have_ticks.
    + by rewrite add_position_sum.
    + by apply remove_position_have_ticks.
    + by rewrite remove_position_sum.
  - by intros p [_ Hsum].
Qed.

(** C7. removePosition raises the InvalidPosition failure (ValueError)
    exactly when no position is stored under the key or the stored
    liquidity is less than the amount; and when it does, the pool (position
    ledger, tick ledger, active liquidity and all) is left as it was. *)
Theorem remove_position_invalid o l u a p :
  (snd (remove_position o l u a p) = Raise ValueError <->
   positions p !! (o, l, u) = None \/
   exists held, positions p !! (o, l, u) = Some held /\ held < a) /\
  (snd (remove_position o l u a p) = Raise ValueError ->
   fst (remove_position o l u a p) = p).
Proof.
  assert (Hguard : forall held, positions p !! (o, l, u) = Some held -> a <= held ->
            snd (remove_position o l u a p) <> Raise ValueError).
  { intros held Hk Hle. unfold remove_position. rewrite Hk.
    destruct (held <? a) eqn:E; [lia|]. cbv zeta. simpl.
    destruct (ticks p !! l); [|done]. simpl.
    destruct (_ !! u); [|done]. unfold in_range. simpl.
    match goal with |- context [if ?c then _ else _] => destruct c end; done. }
  destruct (positions p !! (o, l, u)) as [held|] eqn:Hk.
  - destruct (Z_lt_le_dec held a) as [Hlt|Hle].
    + rewrite (remove_position_short o l u a p held Hk Hlt). simpl.
      split; [|done]. split; [|done]. intros _. right. eauto.
    + specialize (Hguard held eq_refl Hle). split; [|done].
      split; [done|]. intros [?|(h & [= <-] & ?)]; [done | lia].
  - rewrite (remove_position_absent o l u a p Hk). simpl.
    split; [|done]. split; [|done]. intros _. by left.
Qed.

(** C9, amended. Starting from a fresh pool, after every operation of
    every sequence of addPosition calls with strictly positive amounts and
    removePosition calls with non-negative amounts, the position ledger
    holds no entry with liquidity 0. *)
Theorem no_zero_liquidity_position fee0 spacing s p0 (ops : list ledger_op) :
  init get_tick fee0 spacing s = Ok p0 ->
  Forall positive_amount ops ->
  Forall no_zero_position (ledger_states ops p0).
Proof.
  intros Hi Hops. apply init_fresh in Hi as (Hp & Ht & _).
  eapply Forall_impl.
  - apply (ledger_states_invariant
             (fun p => positions_have_ticks p /\ positions_positive p)
             positive_amount); [|exact Hops|].
    + intros [o l u a|o l u a] p Ha [Hpt Hpp]; simpl in *; split.
      * by apply add_position_have_ticks.
      * by apply add_position_positive.
      * by apply remove_position_have_ticks.
      * by apply remove_position_positive.
    + split; intros ?; intros; rewrite Hp in *; done.
  - intros p [_ Hpp] k x Hx. apply Hpp in Hx. lia.
Qed.

(** C10. On every pool a run can reach (tick spacing not 0), after
    addPosition with a lower or upper tick that is not a multiple of the
    tick spacing, removePosition with the same owner, the same unaligned
    ticks and the same amount raises the InvalidPosition failure
    (ValueError) and leaves the pool as the add left it.  When the add
    returned, it stored the position under the two aligned ticks, a key
    other than the caller's, and the position is still there after the
    failed removal; when the add raised (the division of lines 53-54
    overflows on ticks beyond the float range), it stored nothing. *)
Theorem remove_unaligned_raises o l u a p :
  reachable get_tick p ->
  tick_spacing p <> 0 ->
  l mod tick_spacing p <> 0 \/ u mod tick_spacing p <> 0 ->
  let p1 := fst (add_position o l u a p) in
  remove_position o l u a p1 = (p1, Raise ValueError) /\
  (snd (add_position o l u a p) = Ok tt ->
   exists l' u',
     align l (tick_spacing p) = Ok l' /\ align u (tick_spacing p) = Ok u' /\
     (l', u') <> (l, u) /\
     is_Some (positions p1 !! (o, l', u'))) /\
  (snd (add_position o l u a p) <> Ok tt -> p1 = p).
Proof.
  intros Hr Hs Hun p1. split; [|split].
  - apply remove_position_absent.
    destruct (positions p1 !! (o, l, u)) as [x|] eqn:Hx; [|done].
    exfalso.
    assert (Hal : keys_aligned p1) by (apply reachable_aligned with get_tick;
                                       by constructor).
    apply Hal in Hx as [Hl Hu].
    destruct (add_position_frame o l u a p) as (_ & Hsp & _).
    fold p1 in Hsp. rewrite Hsp in Hl, Hu. tauto.
  - unfold p1.
    destruct (add_position_cases o l u a p)
      as [[e ->]|(l' & u' & Hl & Hu & ->)]; [done|].
    intros _. exists l', u'. split; [done|]. split; [done|]. split.
    + intros [= -> ->]. apply align_multiple in Hl, Hu. tauto.
    + simpl. rewrite store_position_positions, lookup_insert_eq. eauto.
  - unfold p1.
    destruct (add_position_cases o l u a p)
      as [[e ->]|(l' & u' & _ & _ & ->)]; done.
Qed.

End LedgerClaims.

Section PoolClaims.

Context {F : Type} `{PyFloat F}.
Variable get_tick : Z -> result Z.
Implicit Types (p : @Pool F) (m : gmap Z Z).

Lemma lookup_adjust_tick m k d t :
  adjust_tick k d m !! t =
  if decide (k = t) then Some (tick_delta m k + d) else m !! t.
Proof. unfold adjust_tick. apply lookup_insert. Qed.

Lemma lookup_ensure_tick m k t :
  ensure_tick k m !! t =
  if decide (k = t) then Some (tick_delta m k) else m !! t.
Proof.
  unfold ensure_tick, tick_delta. case_decide as Hk.
  - subst. destruct (m !! t) eqn:E; [done|]. by rewrite lookup_insert_eq.
  - destruct (m !! k); [done|]. by rewrite lookup_insert_ne.
Qed.

(** C4, amended. On every pool, for every owner, amount and ticks l < u
    that the alignment of lines 53-54 returns unchanged
    (floor(t / spacing) * spacing is t for both), provided the position
    ledger holds no entry of liquidity 0 or less under that key,
    addPosition followed at once by removePosition with the same arguments
    both return, and restore the position ledger and the active liquidity
    exactly, and the net delta of every tick; the tick ledger itself is the
    one before the add with entries at l and u (which hold 0 when no entry
    was there before). *)
Theorem add_then_remove_restores o l u a p :
  l < u ->
  align l (tick_spacing p) = Ok l ->
  align u (tick_spacing p) = Ok u ->
  (forall held, positions p !! (o, l, u) = Some held -> 0 < held) ->
  let p1 := fst (add_position o l u a p) in
  let p2 := fst (remove_position o l u a p1) in
  snd (add_position o l u a p) = Ok tt /\
  snd (remove_position o l u a p1) = Ok tt /\
  positions p2 = positions p /\
  liquidity p2 = liquidity p /\
  (forall t, tick_delta (ticks p2) t = tick_delta (ticks p) t) /\
  ticks p2 =
    <[u := tick_delta (ticks p) u]> (<[l := tick_delta (ticks p) l]> (ticks p)).
Proof.
  intros Hlu Hl Hu Hheld p1 p2.
  pose proof (add_position_aligns o l u a p l u Hl Hu) as Hadd.
  assert (Hp1 : p1 = store_position o l u a p) by (unfold p1; by rewrite Hadd).
  pose proof (store_position_positions o l u a p) as Hpos1.
  pose proof (store_position_ticks o l u a p) as Hticks1.
  pose proof (store_position_liquidity o l u a p) as Hliq1.
  destruct (store_position_frame o l u a p) as (_ & _ & _ & Htick1).
  rewrite <- Hp1 in Hpos1, Hticks1, Hliq1, Htick1.
  set (h1 := match positions p !! (o, l, u) with
             | Some held => held + a | None => a end) in *.
  assert (Hk1 : positions p1 !! (o, l, u) = Some h1)
    by (rewrite Hpos1; apply lookup_insert_eq).
  assert (Hle : a <= h1).
  { unfold h1. destruct (positions p !! (o, l, u)) as [held|] eqn:E; [|lia].
    specialize (Hheld held eq_refl). lia. }
  assert (Hl1 : is_Some (ticks p1 !! l)).
  { rewrite Hticks1. apply adjust_tick_keeps. rewrite lookup_adjust_tick.
    rewrite decide_True by done. eauto. }
  assert (Hu1 : is_Some (ticks p1 !! u)).
  { rewrite Hticks1. rewrite lookup_adjust_tick. rewrite decide_True by done. eauto. }
  destruct (remove_position_done o l u a p1 h1 Hk1 Hle Hl1 Hu1)
    as (Hres & Hpos2 & Hticks2 & Hliq2 & _).
  fold p2 in Hpos2, Hticks2, Hliq2.
  assert (Hdelta : forall t, tick_delta (ticks p2) t = tick_delta (ticks p) t).
  { intros t. rewrite Hticks2, Hticks1.
    rewrite !tick_delta_adjust, !tick_delta_ensure.
    repeat case_decide; subst; lia. }
  split; [|split; [|split; [|split; [|split]]]].
  - by rewrite Hadd.
  - exact Hres.
  - rewrite Hpos2, Hpos1. unfold h1.
    destruct (positions p !! (o, l, u)) as [held|] eqn:E.
    + specialize (Hheld held eq_refl).
      destruct (held + a - a =? 0) eqn:E0; [lia|].
      rewrite insert_insert_eq. apply insert_id.
      rewrite E. f_equal. lia.
    + rewrite Z.sub_diag. simpl. rewrite delete_insert_eq. by apply delete_id.
  - rewrite Hliq2, Hliq1. unfold in_range. rewrite Htick1.
    destruct ((l <=? tick p) && (tick p <? u)); lia.
  - exact Hdelta.
  - apply map_eq. intros t.
    rewrite !lookup_insert.
    pose proof (Hdelta t) as Ht.
    rewrite Hticks2, Hticks1 in *.
    rewrite !lookup_adjust_tick, !lookup_ensure_tick.
    rewrite !tick_delta_adjust, !tick_delta_ensure.
    repeat case_decide; subst; try lia; try done; f_equal; lia.
Qed.

(** C6. On every pool, a swap whose amount is at most 0, and a swap with
    any amount when the active liquidity is at most 0, returns (0, 0)
    without raising and leaves the pool unchanged: the square-root price,
    the current tick and the active liquidity in particular. *)
Theorem swap_noop z a p :
  amount_nonpositive a \/ liquidity p <= 0 ->
  swap get_tick z a p = (p, Ok (PInt 0, PInt 0)).
Proof.
  intros Hguard. unfold swap. rewrite swap_simple_unfold.
  assert (Hb : num_le0 a || (liquidity p <=? 0) = true).
  { apply orb_true_iff. destruct Hguard as [Ha|Hl].
    - left. destruct a as [n|x]; simpl in *; [by apply Z.leb_le | done].
    - right. by apply Z.leb_le. }
  by rewrite Hb.
Qed.

(** The crossing states of a swap are states of its loop: when the swap
    crosses a tick, the pool it leaves is the last of them. *)
Lemma swap_ends_in_last_crossing z a p :
  fst (swap get_tick z a p) =
  default (fst (swap get_tick z a p))
          (last (swap_crossing_states get_tick z a p)).
Proof.
  unfold swap, swap_crossing_states. rewrite swap_simple_state.
  destruct (num_le0 a || (liquidity p <=? 0)); [done|].
  destruct (swap_reprice z a p) as [p1 [r|e]]; [|done]. simpl.
  rewrite swap_retick_unfold.
  destruct (get_tick (sqrt_price_x96 p1)) as [t|e]; [|done]. simpl.
  destruct (tick p1 =? t); [done|].
  rewrite cross_loop_last.
  by destruct (last _).
Qed.

(** C3. For every sequence of swaps on a pool whose active liquidity is
    not negative, the active liquidity is not negative after any tick
    crossing of any of the swaps, nor when any of the swaps returns (or
    raises), whatever the deltas stored in the tick ledger. *)
Theorem liquidity_never_negative (calls : list (bool * pynum F)) p0 :
  0 <= liquidity p0 ->
  Forall (fun p => 0 <= liquidity p) (swap_states get_tick calls p0).
Proof.
  revert p0. induction calls as [|[z a] calls IH]; intros p0 Hp0; simpl.
  - constructor.
  - apply Forall_app. split.
    + unfold swap_crossing_states.
      destruct (num_le0 a || (liquidity p0 <=? 0)); [constructor|].
      destruct (swap_reprice z a p0) as [p1 [r|e]]; [|constructor].
      destruct (get_tick (sqrt_price_x96 p1)); [|constructor].
      destruct (tick p1 =? _); [constructor|].
      apply cross_loop_states_nonneg.
    + assert (Hp1 : 0 <= liquidity (fst (swap get_tick z a p0)))
        by by apply swap_simple_nonneg.
      constructor; [done | by apply IH].
Qed.

(** What a crossing made by the swap loops does to the active liquidity:
    the loops run after [self.tick] has moved, so [cross_tick] sees the
    crossed tick above the current tick when the price went down, and not
    above it when the price went up. *)
Lemma crossing_in_swap z old t p :
  is_crossed z old t p = true ->
  liquidity (cross_tick t p) =
  if z
  then Z.max 0 (liquidity p + tick_delta (ticks p) t)
  else if liquidity p <? tick_delta (ticks p) t then 0
       else Z.max 0 (liquidity p - tick_delta (ticks p) t).
Proof.
  intros Hc. rewrite cross_tick_liquidity. unfold is_crossed in Hc.
  destruct z; apply andb_true_iff in Hc as [H1 H2].
  - by rewrite H2.
  - apply Z.ltb_lt in H2. destruct (tick p <? t) eqn:E; [|done].
    apply Z.ltb_lt in E. lia.
Qed.

End PoolClaims.

(** * Concrete runs *)

Module Runs.

Import Binary64 Examples.

Lemma fresh_pool_init :
  init (converter_returning 80067) (flit 0.003%Q) 60 sqrt_price_3000
  = Ok fresh_pool.
Proof. reflexivity. Qed.

Lemma fresh_pool_reachable get_tick :
  get_tick sqrt_price_3000 = Ok 80067 -> reachable get_tick fresh_pool.
Proof.
  intros Hg. apply reachable_init with (flit 0.003%Q) 60 sqrt_price_3000.
  unfold init. by rewrite Hg.
Qed.

(** C1, at a failing input. The pool of [simulation.py] (fee 0.003, tick
    spacing 60, price 3000, tick 80067) holds one position of liquidity
    10^13 over [79980, 80100).  [swap(False, 5 * 10**10)] raises the price
    by the capped 10 percent, to the square-root price
    4551311429332874308547690627072, whose tick is 81020.  The price moves
    up through tick 80100, whose net delta is -10^13: the swap crosses that
    tick alone, and the active liquidity becomes 2 * 10^13, the delta
    subtracted, where adding it gives 0. *)
Theorem swap_up_subtracts_crossed_delta (get_tick : Z -> result Z) :
  get_tick 4551311429332874308547690627072 = Ok 81020 ->
  let p := one_position_pool in
  let p' := fst (swap get_tick false (PInt (5 * 10 ^ 10)) p) in
  tick p = 80067 /\ liquidity p = 10 ^ 13 /\
  tick_delta (ticks p) 80100 = - 10 ^ 13 /\
  sqrt_price_x96 p' = 4551311429332874308547690627072 /\
  tick p' = 81020 /\
  filter (fun t => tick p <= t < tick p') (sorted_ticks false p') = [80100] /\
  map liquidity (swap_crossing_states get_tick false (PInt (5 * 10 ^ 10)) p)
    = [2 * 10 ^ 13] /\
  liquidity p' = liquidity p - tick_delta (ticks p) 80100 /\
  liquidity p' <> liquidity p + tick_delta (ticks p) 80100.
Proof.
  intros Hg p p'.
  assert (Hr : exists r p1, swap_reprice false (PInt (5 * 10 ^ 10)) p = (p1, Ok r) /\
             sqrt_price_x96 p1 = 4551311429332874308547690627072 /\
             tick p1 = 80067 /\ liquidity p1 = 10 ^ 13 /\ ticks p1 = ticks p).
  { destruct (swap_reprice false (PInt (5 * 10 ^ 10)) p) as [p1 r] eqn:E.
    vm_compute in E. injection E as <- <-. eexists _, _. done. }
  destruct Hr as (r & p1 & Hr & Hs1 & Ht1 & Hl1 & Hticks1).
  destruct p1 as [f1 sp1 s1 l1 t1 pos1 tk1].
  cbn [sqrt_price_x96 tick liquidity ticks] in Hs1, Ht1, Hl1, Hticks1.
  subst s1 t1 l1 tk1.
  set (p1 := mkPool f1 sp1 4551311429332874308547690627072 (10 ^ 13) 81020
                    pos1 (ticks p)).
  assert (Hguard : num_le0 (PInt (5 * 10 ^ 10)) || (liquidity p <=? 0) = false)
    by by vm_compute.
  assert (Hsorted : sorted_ticks false p1 = [79980; 80100]) by by vm_compute.
  assert (Hp' : p' = cross_loop false 80067 [79980; 80100] p1).
  { unfold p', swap. rewrite swap_simple_state, Hguard, Hr, swap_retick_unfold.
    cbn [sqrt_price_x96 tick]. rewrite Hg. cbn [fst]. by rewrite <- Hsorted. }
  assert (Hstates : swap_crossing_states get_tick false (PInt (5 * 10 ^ 10)) p
                    = cross_loop_states false 80067 [79980; 80100] p1).
  { unfold swap_crossing_states. rewrite Hguard, Hr.
    cbn [sqrt_price_x96 tick]. rewrite Hg. by rewrite <- Hsorted. }
  rewrite Hstates. subst p'. rewrite Hp'. clear Hp' Hstates Hr Hg.
  repeat split; try by vm_compute.
Qed.

Lemma swap_up_subtracts_crossed_delta_witness :
  let p := one_position_pool in
  let p' := fst (swap (converter_returning 81020) false (PInt (5 * 10 ^ 10)) p) in
  tick p' = 81020 /\ liquidity p' = 2 * 10 ^ 13.
Proof.
  pose proof (swap_up_subtracts_crossed_delta (converter_returning 81020) eq_refl)
    as (_ & Hl & Hd & _ & Ht & _ & _ & Hl' & _).
  split; [exact Ht|]. rewrite Hl', Hl, Hd. reflexivity.
Defined.

(** C4, as stated, fails.  On the fresh pool of [simulation.py] (tick
    spacing 60): with l = 79980 < u = 80100, both multiples of 60, the add
    and the remove return but the tick ledger keeps two entries of value 0
    that were not there; with l = 80000, not a multiple of 60, the position
    is stored under (79980, 80100), the remove raises, and position ledger,
    tick ledger and active liquidity all stay changed; and on the pool
    reached by [add_position("LP", 79980, 80100, 0)], which stores a
    position of liquidity 0, the add and the remove return and delete that
    entry. *)
Lemma add_then_remove_not_inverse :
  let restored (p p2 : @Pool float) :=
    positions p2 = positions p /\ ticks p2 = ticks p /\
    liquidity p2 = liquidity p in
  let round_trip o l u a (p : @Pool float) :=
    fst (remove_position o l u a (fst (add_position o l u a p))) in
  (79980 < 80100 /\
   ~ restored fresh_pool (round_trip "LP"%string 79980 80100 5 fresh_pool)) /\
  (80000 < 80100 /\
   ~ restored fresh_pool (round_trip "LP"%string 80000 80100 5 fresh_pool)) /\
  (let p := fst (add_position "LP" 79980 80100 0 fresh_pool) in
   ~ restored p (round_trip "LP"%string 79980 80100 5 p)).
Proof.
  cbv zeta. repeat split; try lia.
  - intros (_ & Ht & _).
    assert (E : ticks (fst (remove_position "LP" 79980 80100 5
                  (fst (add_position "LP" 79980 80100 5 fresh_pool)))) !! 79980
                = ticks fresh_pool !! 79980) by by rewrite Ht.
    vm_compute in E. discriminate.
  - intros (_ & _ & Hl). vm_compute in Hl. discriminate.
  - intros (Hp & _ & _).
    assert (E : positions (fst (remove_position "LP" 79980 80100 5
                  (fst (add_position "LP" 79980 80100 5
                     (fst (add_position "LP" 79980 80100 0 fresh_pool))))))
                  !! ("LP"%string, 79980, 80100)
                = positions (fst (add_position "LP" 79980 80100 0 fresh_pool))
                  !! ("LP"%string, 79980, 80100)) by by rewrite Hp.
    vm_compute in E. discriminate.
Qed.

Lemma add_then_remove_restores_witness :
  let p1 := fst (add_position "LP" 79980 80100 5 one_position_pool) in
  let p2 := fst (remove_position "LP" 79980 80100 5 p1) in
  positions p2 = positions one_position_pool /\
  liquidity p2 = liquidity one_position_pool.
Proof.
  assert (Hheld : forall held,
            positions one_position_pool !! ("LP"%string, 79980, 80100) = Some held ->
            0 < held).
  { vm_compute. intros held [= <-]. reflexivity. }
  pose proof (@add_then_remove_restores float Binary64.ops
                "LP" 79980 80100 5 one_position_pool
                ltac:(lia) ltac:(vm_compute; reflexivity)
                ltac:(vm_compute; reflexivity) Hheld)
    as (_ & _ & Hp & Hl & _).
  split; [exact Hp | exact Hl].
Defined.

(** C9, as stated, fails: 0 is a non-negative amount, and on the fresh
    pool [add_position("LP", 79980, 80100, 0)] stores a position of
    liquidity 0. *)
Lemma zero_amount_creates_zero_position :
  let ops := [AddPosition "LP" 79980 80100 0] in
  init (converter_returning 80067) (flit 0.003%Q) 60 sqrt_price_3000
    = Ok fresh_pool /\
  Forall nonnegative_amount ops /\
  positions (run_ledger ops fresh_pool) !! ("LP"%string, 79980, 80100) = Some 0 /\
  ~ Forall no_zero_position (ledger_states ops fresh_pool).
Proof.
  cbv zeta. split; [reflexivity|]. split; [|split].
  - constructor; [simpl; lia | constructor].
  - by vm_compute.
  - intros Hall. inversion Hall as [|? ? Hz _]; subst.
    by apply (Hz ("LP"%string, 79980, 80100) 0); vm_compute.
Qed.

Lemma zero_sum_ledger_witness :
  Forall (fun p : @Pool float => ledger_sum (ticks p) = 0)
    (fresh_pool ::
     ledger_states [AddPosition "LP" 79980 80100 5;
                    RemovePosition "LP" 79980 80100 2;
                    RemovePosition "LP" 0 60 1] fresh_pool).
Proof.
  apply (zero_sum_ledger (converter_returning 80067) (flit 0.003%Q) 60
           sqrt_price_3000).
  reflexivity.
Defined.

Lemma no_zero_liquidity_position_witness :
  Forall no_zero_position
    (ledger_states [AddPosition "LP" 79980 80100 5;
                    RemovePosition "LP" 79980 80100 5] fresh_pool).
Proof.
  apply (no_zero_liquidity_position (converter_returning 80067) (flit 0.003%Q)
           60 sqrt_price_3000).
  - reflexivity.
  - repeat constructor; simpl; lia.
Defined.

Lemma remove_unaligned_raises_witness :
  let p1 := fst (add_position "LP" 80000 80100 5 fresh_pool) in
  remove_position "LP" 80000 80100 5 p1 = (p1, Raise ValueError) /\
  is_Some (positions p1 !! ("LP"%string, 79980, 80100)).
Proof.
  pose proof (remove_unaligned_raises (converter_returning 80067)
                "LP" 80000 80100 5 fresh_pool) as Hthm.
  destruct Hthm as (Hrem & Hadd & _).
  - apply fresh_pool_reachable. reflexivity.
  - vm_compute. discriminate.
  - left. vm_compute. discriminate.
  - split; [exact Hrem|].
    destruct (Hadd ltac:(vm_compute; reflexivity)) as (l' & u' & Hl & Hu & _ & Hin).
    vm_compute in Hl, Hu. by injection Hl as <-; injection Hu as <-.
Defined.

(** The alignment of lines 53-54 divides in binary64: beyond 2^53 it can
    move a multiple of the spacing, and beyond the float range it raises. *)
Lemma align_follows_float_division :
  @align float _ 80000 60 = Ok 79980 /\
  @align float _ (-7) 2 = Ok (-8) /\
  @align float _ 5 0 = Raise ZeroDivisionError /\
  @align float _ (2 ^ 53 + 1) 1 = Ok (2 ^ 53) /\
  @align float _ (2 ^ 53 + 3) 1 = Ok (2 ^ 53 + 4) /\
  @align float _ (10 ^ 400 + 1) 1 = Raise OverflowError.
Proof. repeat split; vm_compute; reflexivity. Qed.

Lemma swap_noop_witness :
  swap (converter_returning 80067) true (PInt 0) one_position_pool
    = (one_position_pool, Ok (PInt 0, PInt 0)) /\
  swap (converter_returning 80067) false (PFloat 1%float) fresh_pool
    = (fresh_pool, Ok (PInt 0, PInt 0)).
Proof.
  split.
  - apply (swap_noop (converter_returning 80067) true (PInt 0) one_position_pool).
    left. simpl. lia.
  - apply (swap_noop (converter_returning 80067) false (PFloat 1%float) fresh_pool).
    right. simpl. lia.
Defined.

Lemma liquidity_never_negative_witness :
  Forall (fun p : @Pool float => 0 <= liquidity p)
    (swap_states (converter_returning 81020)
       [(false, PInt (5 * 10 ^ 10)); (true, PFloat 1%float)] one_position_pool).
Proof.
  apply (liquidity_never_negative (converter_returning 81020)).
  vm_compute. discriminate.
Defined.

End Runs.

(** * The price impact of a swap, with the rounding of its operations *)

Section RoundingArithmetic.

Local Open Scope Q_scope.







End RoundingArithmetic.

Section RoundedSwap.

Context {F : Type} `{PyFloat F}.
Variable value : F -> Q.
Variable u : Q.
Variable get_tick : Z -> result Z.
Implicit Types (p : @Pool F).

Local Open Scope Q_scope.








End RoundedSwap.

Module PriceRuns.

Import Binary64 Examples.


End PriceRuns.


Module RoundedRuns.

Import Binary64 Examples.
Local Open Scope Q_scope.


End RoundedRuns.

(** * The round trip of the two converters *)

Section PowerBounds.

Local Open Scope Q_scope.










End PowerBounds.

Section RoundTrip.

Context {F : Type} `{PyFloat F}.

Variable value : F -> Q.
Variable u : Q.
Variable floor_log : F -> result Z.
Variable float_pow : F -> F -> result F.

Local Open Scope Q_scope.


End RoundTrip.

Module RoundTripRuns.

Import Binary64.
Local Open Scope Q_scope.


End RoundTripRuns.

(** * Further properties of the pool engine *)

Section LedgerReadingFacts.

Context {F : Type} `{PyFloat F}.
Implicit Types (p : @Pool F) (m : gmap position_key Z).

Lemma weighted_total_empty w : weighted_total w ∅ = 0.
Proof. unfold weighted_total. by rewrite map_fold_empty. Qed.

Lemma weighted_total_insert_fresh w m k v :
  m !! k = None -> weighted_total w (<[k := v]> m) = w k * v + weighted_total w m.
Proof.
  intros Hk. unfold weighted_total.
  rewrite map_fold_insert_L; [done | intros; lia | done].
Qed.

Lemma weighted_total_delete w m k :
  weighted_total w (delete k m) = weighted_total w m - w k * held_liquidity m k.
Proof.
  unfold held_liquidity. destruct (m !! k) as [x|] eqn:Hk; simpl.
  - rewrite <- (insert_id m k x Hk) at 2.
    rewrite <- (insert_delete_eq m k x).
    rewrite weighted_total_insert_fresh by apply lookup_delete_eq. lia.
  - rewrite delete_id by done. lia.
Qed.

Lemma weighted_total_insert w m k v :
  weighted_total w (<[k := v]> m)
  = weighted_total w m - w k * held_liquidity m k + w k * v.
Proof.
  rewrite <- (insert_delete_eq m k v).
  rewrite weighted_total_insert_fresh by apply lookup_delete_eq.
  rewrite weighted_total_delete. lia.
Qed.

(** What the two ledger operations do to a weighted total. *)
Lemma store_position_total w o l u a p :
  weighted_total w (positions (store_position o l u a p))
  = weighted_total w (positions p) + w (o, l, u) * a.
Proof.
  rewrite store_position_positions.
  rewrite weighted_total_insert. unfold held_liquidity.
  destruct (positions p !! _); simpl; lia.
Qed.

Lemma remove_position_total w o l u a p held :
  positions p !! (o, l, u) = Some held -> a <= held ->
  is_Some (ticks p !! l) -> is_Some (ticks p !! u) ->
  weighted_total w (positions (fst (remove_position o l u a p)))
  = weighted_total w (positions p) - w (o, l, u) * a.
Proof.
  intros Hk Hle Hl Hu.
  destruct (remove_position_done o l u a p held Hk Hle Hl Hu) as (_ & -> & _).
  destruct (held - a =? 0) eqn:E.
  - apply Z.eqb_eq in E. rewrite weighted_total_delete.
    unfold held_liquidity. rewrite Hk. simpl. nia.
  - rewrite weighted_total_insert. unfold held_liquidity. rewrite Hk. simpl. lia.
Qed.

End LedgerReadingFacts.

Section LedgerReadingClaims.

Context {F : Type} `{PyFloat F}.
Variable get_tick : Z -> result Z.
Implicit Types (p : @Pool F).

Lemma add_position_keeps_in_range_total o l u a p :
  liquidity p = in_range_liquidity p ->
  liquidity (fst (add_position o l u a p))
  = in_range_liquidity (fst (add_position o l u a p)).
Proof.
  intros Hinv.
  destruct (add_position_cases o l u a p) as [[e ->]|(l' & u' & _ & _ & ->)];
    [done|]. simpl.
  unfold in_range_liquidity.
  destruct (store_position_frame o l' u' a p) as (_ & _ & _ & ->).
  rewrite store_position_total, store_position_liquidity.
  fold (in_range_liquidity p). rewrite <- Hinv.
  unfold in_range, covers. simpl.
  destruct ((l' <=? tick p) && (tick p <? u')); lia.
Qed.

Lemma remove_position_keeps_in_range_total o l u a p :
  positions_have_ticks p ->
  liquidity p = in_range_liquidity p ->
  liquidity (fst (remove_position o l u a p))
  = in_range_liquidity (fst (remove_position o l u a p)).
Proof.
  intros Hpt Hinv.
  destruct (remove_position_cases o l u a p Hpt)
    as [-> | (held & Hk & Hle & Hl & Hu)]; [done|].
  unfold in_range_liquidity.
  rewrite (remove_position_total _ o l u a p held) by done.
  destruct (remove_position_done o l u a p held Hk Hle Hl Hu)
    as (_ & _ & _ & -> & _ & _ & _ & ->).
  fold (in_range_liquidity p). rewrite <- Hinv.
  unfold in_range, covers. simpl.
  destruct ((l <=? tick p) && (tick p <? u)); lia.
Qed.

(** X1. Starting from a fresh pool, after every operation of every
    sequence of add_position and remove_position calls, the active
    liquidity is the sum of the liquidity of the stored positions whose
    range [lower, upper) holds the current tick. *)
Theorem active_liquidity_is_in_range_total fee0 spacing s p0
    (ops : list ledger_op) :
  init get_tick fee0 spacing s = Ok p0 ->
  Forall (fun p => liquidity p = in_range_liquidity p)
         (p0 :: ledger_states ops p0).
Proof.
  intros Hi. apply init_fresh in Hi as (Hp & Ht & Hl & _).
  assert (Hinv : positions_have_ticks p0 /\ liquidity p0 = in_range_liquidity p0).
  { split; [intros o l u x; by rewrite Hp|].
    unfold in_range_liquidity. rewrite Hp, Hl. by rewrite weighted_total_empty. }
  constructor; [apply Hinv|].
  eapply Forall_impl.
  - apply (ledger_states_invariant
             (fun p => positions_have_ticks p /\ liquidity p = in_range_liquidity p)
             (fun _ => True)); [|by apply Forall_true|exact Hinv].
    intros [o l u a|o l u a] p _ [Hpt Hliq]; simpl; split.
    + by apply add_position_have_ticks.
    + by apply add_position_keeps_in_range_total.
    + by apply remove_position_have_ticks.
    + by apply remove_position_keeps_in_range_total.
  - by intros p [_ Hliq].
Qed.

(** X2. On every pool a run can reach, by any interleaving of
    add_position, remove_position and swap calls, the net delta stored at
    every tick is the liquidity of the positions whose lower tick it is
    minus the liquidity of the positions whose upper tick it is (0 for a
    tick without entry). *)
Theorem tick_delta_is_boundary_total p (t : Z) :
  reachable get_tick p ->
  tick_delta (ticks p) t = net_delta_of_positions p t.
Proof.
  intros Hr. revert t.
  induction Hr as [fee0 sp s p Hi|o l u a p Hr IH|o l u a p Hr IH|z a p Hr IH];
    intros t.
  - apply init_fresh in Hi as (Hp & Ht & _).
    unfold net_delta_of_positions. rewrite Hp, Ht.
    by rewrite weighted_total_empty.
  - destruct (add_position_cases o l u a p)
      as [[e ->]|(l' & u' & _ & _ & ->)]; [apply IH|]. simpl.
    unfold net_delta_of_positions.
    rewrite store_position_total, store_position_ticks.
    fold (net_delta_of_positions p t). rewrite <- IH.
    rewrite !tick_delta_adjust, !tick_delta_ensure.
    unfold boundary_sign. simpl.
    destruct (Z.eqb_spec l' t), (Z.eqb_spec u' t);
      repeat case_decide; subst; try congruence; lia.
  - apply reachable_have_ticks in Hr.
    destruct (remove_position_cases o l u a p Hr)
      as [-> | (held & Hk & Hle & Hl & Hu)]; [apply IH|].
    unfold net_delta_of_positions.
    rewrite (remove_position_total _ o l u a p held) by done.
    destruct (remove_position_done o l u a p held Hk Hle Hl Hu) as (_ & _ & -> & _).
    fold (net_delta_of_positions p t). rewrite <- IH.
    rewrite !tick_delta_adjust.
    unfold boundary_sign. simpl.
    destruct (Z.eqb_spec l t), (Z.eqb_spec u t);
      repeat case_decide; subst; try congruence; lia.
  - destruct (swap_simple_frame get_tick z a p) as (_ & _ & Hp & Ht).
    unfold net_delta_of_positions, swap. rewrite Hp, Ht. apply IH.
Qed.

End LedgerReadingClaims.

Section LedgerComposition.

Context {F : Type} `{PyFloat F}.
Variable get_tick : Z -> result Z.
Implicit Types (p q : @Pool F).

Lemma pool_eq p q :
  fee p = fee q -> tick_spacing p = tick_spacing q ->
  sqrt_price_x96 p = sqrt_price_x96 q -> liquidity p = liquidity q ->
  tick p = tick q -> positions p = positions q -> ticks p = ticks q ->
  p = q.
Proof. destruct p, q. simpl. by intros -> -> -> -> -> -> ->. Qed.

(** X3. On every pool a run can reach, remove_position is all or nothing:
    it raises ValueError and leaves the pool as it was, or it returns,
    having taken the amount off the position, off the active liquidity
    when the range holds the current tick, and having left price, tick,
    fee and tick spacing alone.  It never stops on a missing tick entry. *)
Theorem remove_position_all_or_nothing o l u a p :
  reachable get_tick p ->
  remove_position o l u a p = (p, Raise ValueError) \/
  let p' := fst (remove_position o l u a p) in
  snd (remove_position o l u a p) = Ok tt /\
  held_liquidity (positions p') (o, l, u)
    = held_liquidity (positions p) (o, l, u) - a /\
  liquidity p' = (if in_range l u p then liquidity p - a else liquidity p) /\
  sqrt_price_x96 p' = sqrt_price_x96 p /\ tick p' = tick p /\
  fee p' = fee p /\ tick_spacing p' = tick_spacing p.
Proof.
  intros Hr. apply reachable_have_ticks in Hr.
  destruct (remove_position_cases o l u a p Hr)
    as [Hraise | (held & Hk & Hle & Hl & Hu)]; [by left|].
  right.
  destruct (remove_position_done o l u a p held Hk Hle Hl Hu)
    as (Hres & Hpos & _ & Hliq & Hfee & Hsp & Hs & Ht).
  cbv zeta. repeat split; try done.
  rewrite Hpos. unfold held_liquidity. rewrite Hk. simpl.
  destruct (held - a =? 0) eqn:E.
  - apply Z.eqb_eq in E. rewrite lookup_delete_eq. simpl. lia.
  - by rewrite lookup_insert_eq.
Qed.

(** X4. On every pool a run can reach, by any interleaving of
    add_position, remove_position and swap calls: every stored position
    key holds two multiples of the tick spacing, both of which have an
    entry in the tick ledger, and the net deltas of the tick ledger sum
    to 0. *)
Theorem reachable_ledgers_well_formed p :
  reachable get_tick p ->
  ledger_sum (ticks p) = 0 /\
  forall o l u x, positions p !! (o, l, u) = Some x ->
    l mod tick_spacing p = 0 /\ u mod tick_spacing p = 0 /\
    is_Some (ticks p !! l) /\ is_Some (ticks p !! u).
Proof.
  intros Hr. split.
  - by apply reachable_sum with get_tick.
  - intros o l u x Hx.
    destruct (reachable_aligned get_tick p Hr o l u x Hx) as [Hl Hu].
    destruct (reachable_have_ticks get_tick p Hr o l u x Hx) as [Hl' Hu'].
    done.
Qed.

Lemma store_position_adds_up o l u a1 a2 p :
  store_position o l u a2 (store_position o l u a1 p)
  = store_position o l u (a1 + a2) p.
Proof.
  set (p1 := store_position o l u a1 p).
  destruct (store_position_frame o l u a1 p) as (Hf1 & Hs1 & Hq1 & Ht1).
  fold p1 in Hf1, Hs1, Hq1, Ht1.
  destruct (store_position_frame o l u a2 p1) as (Hf2 & Hs2 & Hq2 & Ht2).
  destruct (store_position_frame o l u (a1 + a2) p) as (Hf3 & Hs3 & Hq3 & Ht3).
  apply pool_eq.
  - by rewrite Hf2, Hf1, Hf3.
  - by rewrite Hs2, Hs1, Hs3.
  - by rewrite Hq2, Hq1, Hq3.
  - rewrite !store_position_liquidity. fold p1.
    unfold in_range. rewrite Ht1.
    unfold p1. rewrite store_position_liquidity. unfold in_range.
    destruct ((l <=? tick p) && (tick p <? u)); lia.
  - by rewrite Ht2, Ht1, Ht3.
  - rewrite !store_position_positions. fold p1.
    unfold p1. rewrite store_position_positions.
    rewrite lookup_insert_eq, insert_insert_eq.
    destruct (positions p !! _); f_equal; lia.
  - rewrite !store_position_ticks. fold p1.
    unfold p1. rewrite store_position_ticks.
    apply map_eq. intros t.
    rewrite !lookup_adjust_tick, !lookup_ensure_tick, !lookup_adjust_tick,
      !lookup_ensure_tick.
    rewrite !tick_delta_adjust, !tick_delta_ensure, !tick_delta_adjust,
      !tick_delta_ensure.
    repeat case_decide; subst; try congruence; try done; f_equal; lia.
Qed.

(** X5. Two add_position calls with the same owner and ticks add up: on
    every pool they leave exactly the pool that one call with the sum of
    the two amounts leaves. *)
Theorem add_position_adds_up o l u a1 a2 p :
  fst (add_position o l u a2 (fst (add_position o l u a1 p)))
  = fst (add_position o l u (a1 + a2) p).
Proof.
  destruct (add_position_cases o l u a1 p)
    as [[e He]|(l' & u' & Hl & Hu & He)]; rewrite He; simpl.
  - unfold add_position in *.
    destruct (align l (tick_spacing p)) as [l'|e1]; [|done].
    destruct (align u (tick_spacing p)) as [u'|e2]; done.
  - destruct (store_position_frame o l' u' a1 p) as (_ & Hs1 & _).
    rewrite (add_position_aligns o l u a2 _ l' u') by by rewrite Hs1.
    rewrite (add_position_aligns o l u (a1 + a2) p l' u') by done.
    simpl. apply store_position_adds_up.
Qed.

(** X6. Two remove_position calls that the position covers add up: when
    the position holds at least a1 + a2, with a2 > 0, removing a1 and then
    a2 both return and leave exactly the pool that removing a1 + a2 at once
    leaves. *)
Theorem remove_position_adds_up o l u a1 a2 p held :
  reachable get_tick p ->
  positions p !! (o, l, u) = Some held ->
  0 < a2 -> a1 + a2 <= held ->
  let p1 := fst (remove_position o l u a1 p) in
  snd (remove_position o l u a1 p) = Ok tt /\
  snd (remove_position o l u a2 p1) = Ok tt /\
  snd (remove_position o l u (a1 + a2) p) = Ok tt /\
  fst (remove_position o l u a2 p1) = fst (remove_position o l u (a1 + a2) p).
Proof.
  intros Hr Hk Ha2 Hsum p1.
  pose proof (reachable_have_ticks get_tick p Hr) as Hpt.
  destruct (Hpt o l u held Hk) as [Hl Hu].
  destruct (remove_position_done o l u a1 p held Hk ltac:(lia) Hl Hu)
    as (Hres1 & Hpos1 & Hticks1 & Hliq1 & Hf1 & Hs1 & Hq1 & Ht1).
  fold p1 in Hpos1, Hticks1, Hliq1, Hf1, Hs1, Hq1, Ht1.
  destruct (held - a1 =? 0) eqn:E1; [apply Z.eqb_eq in E1; lia|].
  assert (Hk1 : positions p1 !! (o, l, u) = Some (held - a1))
    by (rewrite Hpos1; apply lookup_insert_eq).
  assert (Hl1 : is_Some (ticks p1 !! l))
    by (rewrite Hticks1; by apply adjust_tick_keeps, adjust_tick_keeps).
  assert (Hu1 : is_Some (ticks p1 !! u))
    by (rewrite Hticks1; by apply adjust_tick_keeps, adjust_tick_keeps).
  destruct (remove_position_done o l u a2 p1 (held - a1) Hk1 ltac:(lia) Hl1 Hu1)
    as (Hres2 & Hpos2 & Hticks2 & Hliq2 & Hf2 & Hs2 & Hq2 & Ht2).
  destruct (remove_position_done o l u (a1 + a2) p held Hk ltac:(lia) Hl Hu)
    as (Hres3 & Hpos3 & Hticks3 & Hliq3 & Hf3 & Hs3 & Hq3 & Ht3).
  repeat split; try done.
  apply pool_eq.
  - by rewrite Hf2, Hf1, Hf3.
  - by rewrite Hs2, Hs1, Hs3.
  - by rewrite Hq2, Hq1, Hq3.
  - rewrite Hliq2, Hliq3, Hliq1. unfold in_range. rewrite Ht1.
    destruct ((l <=? tick p) && (tick p <? u)); lia.
  - by rewrite Ht2, Ht1, Ht3.
  - rewrite Hpos2, Hpos3, Hpos1.
    replace (held - a1 - a2) with (held - (a1 + a2)) by lia.
    destruct (held - (a1 + a2) =? 0).
    + by rewrite delete_insert_eq.
    + by rewrite insert_insert_eq.
  - rewrite Hticks2, Hticks3, Hticks1.
    apply map_eq. intros t.
    rewrite !lookup_adjust_tick, !tick_delta_adjust.
    repeat case_decide; subst; try congruence; try done; f_equal; lia.
Qed.

End LedgerComposition.

Section SwapStructure.

Context {F : Type} `{PyFloat F}.
Variable get_tick : Z -> result Z.
Implicit Types (p q : @Pool F).

Lemma cross_loop_states_frame z old ts p :
  Forall (fun q => fee q = fee p /\ tick_spacing q = tick_spacing p /\
                   sqrt_price_x96 q = sqrt_price_x96 p /\ tick q = tick p /\
                   positions q = positions p /\ ticks q = ticks p)
         (cross_loop_states z old ts p).
Proof.
  revert p. induction ts as [|t ts IH]; intros p; simpl; [constructor|].
  destruct (is_crossed z old t p); [|apply IH].
  pose proof (cross_tick_frame t p) as Hc.
  constructor; [done|].
  eapply Forall_impl; [apply IH|].
  intros q (-> & -> & -> & -> & -> & ->). done.
Qed.

(** X7. A swap never writes the position ledger, the tick ledger, the fee
    or the tick spacing: for every sequence of swap calls, they are the
    same after every tick crossing and at the end of every call, returning
    or raising, as before the first call. *)
Theorem swaps_leave_ledgers (calls : list (bool * pynum F)) p :
  Forall (fun q => positions q = positions p /\ ticks q = ticks p /\
                   fee q = fee p /\ tick_spacing q = tick_spacing p)
         (swap_states get_tick calls p).
Proof.
  revert p. induction calls as [|[z a] calls IH]; intros p; simpl.
  - constructor.
  - destruct (swap_simple_frame get_tick z a p) as (Hf & Hs & Hp & Ht).
    apply Forall_app. split; [|constructor].
    + unfold swap_crossing_states.
      destruct (num_le0 a || (liquidity p <=? 0)); [constructor|].
      pose proof (swap_reprice_frame z a p) as Hr. cbv zeta in Hr.
      destruct (swap_reprice z a p) as [p1 [r|e]]; [|constructor].
      simpl in Hr. destruct Hr as (Hf1 & Hs1 & _ & _ & Hp1 & Ht1).
      destruct (get_tick (sqrt_price_x96 p1)) as [t|e]; [|constructor].
      destruct (tick p1 =? t); [constructor|].
      eapply Forall_impl; [apply cross_loop_states_frame|].
      intros q (-> & -> & _ & _ & -> & ->). done.
    + done.
    + eapply Forall_impl; [apply IH|].
      unfold swap. intros q (-> & -> & -> & ->). done.
Qed.

Lemma cross_loop_filter z old ts p q :
  tick q = tick p ->
  cross_loop z old ts q
  = foldl (fun r t => cross_tick t r) q
          (filter (fun t => is_crossed z old t p = true) ts).
Proof.
  revert q. induction ts as [|t ts IH]; intros q Hq; simpl; [done|].
  assert (Hc : is_crossed z old t q = is_crossed z old t p)
    by (unfold is_crossed; by rewrite Hq).
  rewrite Hc. rewrite filter_cons.
  destruct (is_crossed z old t p) eqn:E.
  - rewrite decide_True by done. simpl. apply IH.
    destruct (cross_tick_frame t q) as (_ & _ & _ & -> & _). done.
  - rewrite decide_False by done. by apply IH.
Qed.

Lemma StronglySorted_filter {A} (R : relation A) (P : A -> Prop)
    `{forall x, Decision (P x)} (l : list A) :
  StronglySorted R l -> StronglySorted R (filter P l).
Proof.
  induction 1 as [|x l Hl IH Hx]; [constructor|].
  rewrite filter_cons. destruct (decide (P x)); [|done].
  constructor; [done|].
  apply Forall_forall. intros y Hy. apply list_elem_of_filter in Hy as [_ Hy].
  rewrite Forall_forall in Hx. by apply Hx.
Qed.

Lemma StronglySorted_reverse {A} (R : relation A) (l : list A) :
  StronglySorted R l -> StronglySorted (flip R) (reverse l).
Proof.
  induction 1 as [|x l Hl IH Hx]; [constructor|].
  rewrite reverse_cons. apply StronglySorted_app_2.
  - intros x1 x2 Hx1 Hx2. apply list_elem_of_singleton in Hx2 as ->.
    rewrite elem_of_reverse in Hx1. rewrite Forall_forall in Hx.
    unfold flip. by apply Hx.
  - done.
  - repeat constructor.
Qed.

Lemma sorted_keys_strict (m : gmap Z Z) :
  StronglySorted Z.lt (merge_sort Z.le (elements (dom m))).
Proof.
  assert (Hnd : NoDup (merge_sort Z.le (elements (dom m)))).
  { rewrite merge_sort_Permutation. apply NoDup_elements. }
  pose proof (StronglySorted_merge_sort Z.le (elements (dom m))) as Hs.
  induction Hs as [|x l Hl IH Hx]; [constructor|].
  apply NoDup_cons in Hnd as [Hnotin Hnd].
  constructor; [by apply IH|].
  apply Forall_forall. intros y Hy. rewrite Forall_forall in Hx.
  specialize (Hx y Hy). assert (x <> y) by (intros ->; done). lia.
Qed.

(** X8. The crossing loop of a swap, run with the direction flag
    zero_for_one, the tick before the call (old) and the pool that holds
    the new tick, crosses exactly the ticks that have an entry in the tick
    ledger and pass the test of the flag: new < t <= old for a token0 sale
    (zero_for_one true), old <= t < new for a token1 sale; each once, in
    decreasing order for a token0 sale and in increasing order for a token1
    sale.  The test follows the flag, not the way the tick moved: when the
    tick did not move the way of the flag (a token0 sale that left the tick
    where it was or higher, a token1 sale that left it where it was or
    lower), the loop crosses nothing and leaves the pool as it is. *)
Theorem swap_crossings_in_order z old p :
  cross_loop z old (sorted_ticks z p) p
    = foldl (fun q t => cross_tick t q) p (crossed_ticks z old p) /\
  (forall t, t ∈ crossed_ticks z old p <->
     is_Some (ticks p !! t) /\
     if z then tick p < t <= old else old <= t < tick p) /\
  StronglySorted (if z then flip Z.lt else Z.lt) (crossed_ticks z old p) /\
  ((if z then old <= tick p else tick p <= old) ->
   crossed_ticks z old p = [] /\ cross_loop z old (sorted_ticks z p) p = p).
Proof.
  assert (Hmem : forall t, t ∈ crossed_ticks z old p <->
            is_Some (ticks p !! t) /\
            if z then tick p < t <= old else old <= t < tick p).
  { intros t. unfold crossed_ticks. rewrite list_elem_of_filter.
    assert (Hin : t ∈ sorted_ticks z p <-> is_Some (ticks p !! t)).
    { unfold sorted_ticks.
      destruct z; rewrite ?elem_of_reverse, merge_sort_Permutation,
        elem_of_elements, elem_of_dom; done. }
    rewrite Hin. unfold is_crossed.
    destruct z; rewrite andb_true_iff, ?Z.leb_le, ?Z.ltb_lt; tauto. }
  split; [|split; [|split]].
  - by apply cross_loop_filter.
  - exact Hmem.
  - unfold crossed_ticks, sorted_ticks.
    destruct z; apply StronglySorted_filter.
    + apply StronglySorted_reverse, sorted_keys_strict.
    + apply sorted_keys_strict.
  - intros Hdir.
    assert (Hnil : crossed_ticks z old p = []).
    { destruct (crossed_ticks z old p) as [|t ts]; [done|].
      exfalso. assert (Ht : t ∈ t :: ts) by left.
      apply Hmem in Ht as [_ Ht]. destruct z; lia. }
    split; [done|].
    rewrite (cross_loop_filter z old (sorted_ticks z p) p p) by done.
    fold (crossed_ticks z old p). by rewrite Hnil.
Qed.

(** X9. Crossing a tick that has no entry in the tick ledger, or whose net
    delta is 0, leaves a pool whose active liquidity is not negative
    exactly as it is, whichever way the price moves. *)
Theorem cross_tick_without_delta t p :
  tick_delta (ticks p) t = 0 -> 0 <= liquidity p -> cross_tick t p = p.
Proof.
  intros Hd Hl. unfold cross_tick. rewrite Hd. cbv zeta.
  destruct p as [f sp s l tk pos tks]. simpl in *.
  destruct (tk <? t); simpl.
  - unfold set_liquidity. simpl. f_equal. lia.
  - destruct (l <? 0) eqn:E; [apply Z.ltb_lt in E; lia|].
    unfold set_liquidity. simpl. f_equal. lia.
Qed.

Ltac step_swap :=
  match goal with
  | |- context [match ?r with Ok _ => _ | Raise _ => _ end] => destruct r; simpl
  | |- context [if ?c then _ else _] => destruct c; simpl
  end.

Lemma swap_reprice_floor a p p1 r :
  swap_reprice true a p = (p1, Ok r) -> 1 <= sqrt_price_x96 p1.
Proof.
  unfold swap_reprice, bind, lift, read, write, ret. simpl.
  repeat step_swap;
    first [ discriminate | intros [= <- <-]; simpl; lia ].
Qed.

(** X10. A swap selling token0 that gets past its guard and returns leaves
    a square-root price of at least 1; and every swap that returns leaves
    the current tick equal to the converter's value at the stored
    square-root price, if it was before the call. *)
Theorem swap_returns_consistent z a p r :
  snd (swap get_tick z a p) = Ok r ->
  (z = true -> num_le0 a || (liquidity p <=? 0) = false ->
   1 <= sqrt_price_x96 (fst (swap get_tick z a p))) /\
  (get_tick (sqrt_price_x96 p) = Ok (tick p) ->
   get_tick (sqrt_price_x96 (fst (swap get_tick z a p)))
     = Ok (tick (fst (swap get_tick z a p)))).
Proof.
  unfold swap. rewrite swap_simple_unfold.
  destruct (num_le0 a || (liquidity p <=? 0)) eqn:Eg; simpl.
  { intros _. split; [done | done]. }
  destruct (swap_reprice z a p) as [p1 [[[sp np] out]|e]] eqn:Er; [|done].
  rewrite swap_retick_unfold.
  destruct (get_tick (sqrt_price_x96 p1)) as [t|e] eqn:Et; [|done].
  set (p2 := if tick p1 =? t then set_tick t p1
             else cross_loop z (tick p1) (sorted_ticks z (set_tick t p1))
                    (set_tick t p1)).
  assert (Hp2 : sqrt_price_x96 p2 = sqrt_price_x96 p1 /\ tick p2 = t).
  { unfold p2. destruct (tick p1 =? t); [done|].
    destruct (cross_loop_frame z (tick p1) (sorted_ticks z (set_tick t p1))
                (set_tick t p1)) as (_ & _ & -> & -> & _). done. }
  destruct Hp2 as [Hs2 Ht2].
  destruct (py_int out); [|done]. simpl. intros _. split.
  - intros -> _. rewrite Hs2. by eapply swap_reprice_floor.
  - intros _. by rewrite Hs2, Ht2.
Qed.

End SwapStructure.

Section ConverterFacts.

Context {F : Type} `{PyFloat F}.
Variable floor_log : F -> result Z.
Variable float_pow : F -> F -> result F.
Implicit Types (p : @Pool F).

(** X11. get_tick_at_sqrt_price never raises ValueError or
    ZeroDivisionError, whatever the logarithm does; and a tick it returns
    is the rounded-down logarithm of the descaled square-root price, or
    the minimum tick -887272 (only when that price is at most 0 or the
    square-root price is), or the maximum tick 887272 (only when the
    square-root price is positive). *)
Theorem get_tick_at_sqrt_price_outcomes (s : Z) :
  get_tick_at_sqrt_price floor_log s <> Raise ValueError /\
  get_tick_at_sqrt_price floor_log s <> Raise ZeroDivisionError /\
  forall t, get_tick_at_sqrt_price floor_log s = Ok t ->
    (exists v, int_truediv s (2 ^ 96) = Ok v /\ fle v (flit 0) = false /\
               floor_log v = Ok t) \/
    (t = -887272 /\
     (s <= 0 \/ exists v, int_truediv s (2 ^ 96) = Ok v /\ fle v (flit 0) = true)) \/
    (t = 887272 /\ 0 < s).
Proof.
  assert (Hfb : forall e,
            tick_fallback s e <> Raise ValueError /\
            tick_fallback s e <> Raise ZeroDivisionError /\
            forall t, tick_fallback s e = Ok t ->
              (t = -887272 /\ s <= 0) \/ (t = 887272 /\ 0 < s)).
  { intros e. unfold tick_fallback.
    destruct e; destruct (Z.leb_spec s 0); repeat split; try done;
      intros t [= <-]; lia. }
  unfold get_tick_at_sqrt_price.
  destruct (int_truediv s (2 ^ 96)) as [v|e] eqn:Ev.
  - destruct (fle v (flit 0)) eqn:Ele.
    + repeat split; try done. intros t [= <-]. right. left. eauto.
    + destruct (floor_log v) as [t0|e] eqn:El.
      * repeat split; try done. intros t [= <-]. left. eauto.
      * destruct (Hfb e) as (H1 & H2 & H3). repeat split; try done.
        intros t Ht. destruct (H3 t Ht) as [[-> ?]|[-> ?]]; [right; left|right; right];
          eauto.
  - destruct (Hfb e) as (H1 & H2 & H3). repeat split; try done.
    intros t Ht. destruct (H3 t Ht) as [[-> ?]|[-> ?]]; [right; left|right; right];
      eauto.
Qed.

(** X12. The two position valuations cut the range at the current tick.
    calculate_amount0 values no token0 in a range that ends at or below
    the current tick, and values a range that starts below the current tick
    as if it started there.  calculate_amount1 values no token1 in a range
    that starts above the current tick, and values a range that ends above
    the current tick as if it ended there; for an int liquidity it returns
    the liquidity times the difference of the two square-root prices
    whenever the converter returns them, so that the value of a sum of
    liquidities is the sum of the values. *)
Theorem valuations_cut_at_tick lower upper p :
  (forall l0 : pynum F,
     upper <= tick p -> calculate_amount0 float_pow lower upper l0 p = Ok 0) /\
  (forall l0 : pynum F,
     lower <= tick p ->
     calculate_amount0 float_pow lower upper l0 p
     = calculate_amount0 float_pow (tick p) upper l0 p) /\
  (forall l0 : pynum F,
     tick p < lower -> calculate_amount1 float_pow lower upper l0 p = Ok 0) /\
  (forall l0 : pynum F,
     tick p <= upper ->
     calculate_amount1 float_pow lower upper l0 p
     = calculate_amount1 float_pow lower (tick p) l0 p) /\
  (forall s_lower s_upper,
     lower <= tick p ->
     get_sqrt_price_at_tick float_pow lower = Ok s_lower ->
     get_sqrt_price_at_tick float_pow (Z.min upper (tick p)) = Ok s_upper ->
     (forall n, calculate_amount1 float_pow lower upper (PInt n) p
                = Ok (n * (s_upper - s_lower))) /\
     (forall n1 n2,
        calculate_amount1 float_pow lower upper (PInt (n1 + n2)) p
        = Ok (n1 * (s_upper - s_lower) + n2 * (s_upper - s_lower)))).
Proof.
  split; [|split; [|split; [|split]]].
  - intros l0 Ht. unfold calculate_amount0.
    destruct (Z.leb_spec upper (tick p)); [done | lia].
  - intros l0 Ht. unfold calculate_amount0.
    by rewrite Z.max_r, Z.max_id by done.
  - intros l0 Ht. unfold calculate_amount1.
    destruct (Z.ltb_spec (tick p) lower); [done | lia].
  - intros l0 Ht. unfold calculate_amount1.
    by rewrite Z.min_r, Z.min_id by done.
  - intros s_lower s_upper Ht Hl Hu.
    assert (Hn : forall n, calculate_amount1 float_pow lower upper (PInt n) p
                           = Ok (n * (s_upper - s_lower))).
    { intros n. unfold calculate_amount1.
      destruct (Z.ltb_spec (tick p) lower); [lia|]. by rewrite Hl, Hu. }
    split; [exact Hn|].
    intros n1 n2. rewrite Hn. f_equal. lia.
Qed.

End ConverterFacts.

Section AgentFacts.

Context {F : Type} `{PyFloat F}.
Variable get_tick : Z -> result Z.
Implicit Types (p : @Pool F) (a : Agent) (e : AgentPosition).

(** The liquidity a list of records holds for the range [(l, u)]. *)
Local Abbreviation on_record es l u :=
  (foldr (fun e acc =>
            if (position_lower_tick e =? l) && (position_upper_tick e =? u)
            then position_liquidity e + acc else acc) 0 es).

Lemma on_record_app (es1 es2 : list AgentPosition) l u :
  on_record (es1 ++ es2) l u = on_record es1 l u + on_record es2 l u.
Proof.
  induction es1 as [|e es1 IH]; simpl; [done|].
  rewrite IH. destruct (_ && _); lia.
Qed.

Lemma on_record_delete (es : list AgentPosition) i e l u :
  es !! i = Some e ->
  on_record es l u
  = on_record (delete i es) l u
    + (if (position_lower_tick e =? l) && (position_upper_tick e =? u)
       then position_liquidity e else 0).
Proof.
  revert i. induction es as [|e' es IH]; intros [|i] Hi; simpl in *; try done.
  - injection Hi as ->. destruct (_ && _); lia.
  - rewrite (IH i Hi). destruct (_ && _), (_ && _); lia.
Qed.

Lemma on_record_nonneg (es : list AgentPosition) l u :
  Forall (fun e => 0 < position_liquidity e) es -> 0 <= on_record es l u.
Proof.
  induction 1 as [|e es He Hes IH]; simpl; [done|].
  destruct (_ && _); lia.
Qed.

Lemma Forall_delete_position (P : AgentPosition -> Prop) (es : list AgentPosition) i :
  Forall P es -> Forall P (delete i es).
Proof.
  intros Hall. revert i. induction Hall as [|e es He Hes IH]; intros [|i]; simpl;
    [constructor | constructor | done | by constructor].
Qed.

(** The position ledger outside the key a ledger operation is called with. *)
Lemma add_position_other_keys o l u x p k :
  k.1.1 <> o ->
  positions (fst (add_position o l u x p)) !! k = positions p !! k.
Proof.
  intros Hk.
  destruct (add_position_cases o l u x p) as [[e ->]|(l' & u' & _ & _ & ->)];
    [done|]. simpl. rewrite store_position_positions.
  rewrite lookup_insert_ne; [done|]. by intros <-.
Qed.

Lemma remove_position_other_keys o l u x p k :
  k <> (o, l, u) ->
  positions (fst (remove_position o l u x p)) !! k = positions p !! k.
Proof.
  intros Hk. unfold remove_position.
  destruct (positions p !! (o, l, u)) as [held|] eqn:Hh; [|done].
  destruct (held <? x); [done|]. cbv zeta.
  assert (Hpos : (if held - x =? 0 then delete (o, l, u) (positions p)
                  else <[(o, l, u) := held - x]> (positions p)) !! k
                 = positions p !! k).
  { destruct (held - x =? 0);
      [by rewrite lookup_delete_ne | by rewrite lookup_insert_ne]. }
  simpl. destruct (ticks p !! l); [|done]. simpl.
  destruct (_ !! u); [|done]. unfold in_range. simpl.
  match goal with |- context [if ?c then _ else _] => destruct c end; done.
Qed.

(** X13. Agent.add_position with a positive liquidity and ticks that the
    pool's alignment returns unchanged (floor(t / spacing) * spacing is t
    for both) returns, appends the record, and keeps the agent's records
    and the pool in agreement. *)
Theorem agent_add_position_consistent l u liq a p :
  agent_consistent a p ->
  align l (tick_spacing p) = Ok l ->
  align u (tick_spacing p) = Ok u ->
  0 < liq ->
  let out := agent_add_position l u liq (a, p) in
  snd out = Ok tt /\
  agent_name (fst (fst out)) = agent_name a /\
  agent_positions (fst (fst out))
    = agent_positions a ++ [mkAgentPosition l u liq] /\
  agent_consistent (fst (fst out)) (snd (fst out)).
Proof.
  intros [Hpos Hagree] Hl Hu Hliq. cbv zeta. unfold agent_add_position.
  rewrite (add_position_aligns (agent_name a) l u liq p l u Hl Hu).
  pose proof (store_position_positions (agent_name a) l u liq p) as Hp1.
  set (p1 := store_position (agent_name a) l u liq p) in *. simpl.
  repeat split; try done.
  - apply Forall_app. split; [done|]. by repeat constructor.
  - intros l' u'. unfold recorded_liquidity. simpl.
    rewrite on_record_app. simpl. fold (recorded_liquidity a l' u').
    rewrite <- Hagree. unfold held_liquidity. rewrite Hp1.
    rewrite lookup_insert.
    destruct (Z.eqb_spec l l'), (Z.eqb_spec u u'); simpl; subst;
      try (rewrite decide_False by congruence; lia).
    rewrite decide_True by done.
    destruct (positions p !! _); simpl; lia.
Qed.

Lemma agent_remove_position_step i a p e :
  agent_consistent a p ->
  positions_have_ticks p ->
  agent_positions a !! Z.to_nat i = Some e ->
  0 <= i ->
  let out := agent_remove_position i (a, p) in
  snd out = Ok true /\
  agent_name (fst (fst out)) = agent_name a /\
  agent_positions (fst (fst out)) = delete (Z.to_nat i) (agent_positions a) /\
  liquidity (snd (fst out))
    = (if in_range (position_lower_tick e) (position_upper_tick e) p
       then liquidity p - position_liquidity e else liquidity p) /\
  agent_consistent (fst (fst out)) (snd (fst out)) /\
  positions_have_ticks (snd (fst out)) /\
  forall o l u, o <> agent_name a ->
    positions (snd (fst out)) !! (o, l, u) = positions p !! (o, l, u).
Proof.
  intros [Hpos Hagree] Hpt He Hi. cbv zeta. unfold agent_remove_position.
  assert (Hlen : (Z.to_nat i < length (agent_positions a))%nat)
    by (eapply lookup_lt_Some; eauto).
  destruct (Z.ltb_spec i 0); [lia|].
  destruct (Z.leb_spec (Z.of_nat (length (agent_positions a))) i); [lia|].
  simpl. rewrite He.
  set (l := position_lower_tick e). set (u := position_upper_tick e).
  set (liq := position_liquidity e).
  assert (Hliq : 0 < liq).
  { rewrite Forall_forall in Hpos. apply Hpos.
    eapply list_elem_of_lookup_2; eauto. }
  assert (Hrec : recorded_liquidity a l u
                 = on_record (delete (Z.to_nat i) (agent_positions a)) l u + liq).
  { unfold recorded_liquidity. rewrite (on_record_delete _ _ e) by done.
    fold l u liq. by rewrite !Z.eqb_refl. }
  assert (Hrest : 0 <= on_record (delete (Z.to_nat i) (agent_positions a)) l u)
    by (apply on_record_nonneg; by apply Forall_delete_position).
  pose proof (Hagree l u) as Hheld. unfold held_liquidity in Hheld.
  destruct (positions p !! (agent_name a, l, u)) as [held|] eqn:Hk;
    simpl in Hheld; [|lia].
  destruct (Hpt _ _ _ _ Hk) as [Hl Hu].
  destruct (remove_position_done (agent_name a) l u liq p held Hk ltac:(lia) Hl Hu)
    as (Hres & Hp1 & _ & Hliq1 & _).
  pose proof (remove_position_have_ticks (agent_name a) l u liq p Hpt) as Hpt1.
  destruct (remove_position (agent_name a) l u liq p) as [p1 r]. simpl in *.
  subst r. simpl.
  split; [done|]. split; [done|]. split; [done|]. split; [done|].
  split; [|split; [done|]]; [split|].
  3:{ intros o l' u' Ho. rewrite Hp1.
      destruct (held - liq =? 0);
        [rewrite lookup_delete_ne by congruence
        |rewrite lookup_insert_ne by congruence]; done. }
  - by apply Forall_delete_position.
  - intros l' u'. unfold recorded_liquidity, held_liquidity. simpl.
    rewrite Hp1.
    pose proof (Hagree l' u') as Hag. unfold held_liquidity, recorded_liquidity in Hag.
    rewrite (on_record_delete _ _ e) in Hag by done. fold l u liq in Hag.
    destruct (Z.eqb_spec l l') as [El|El]; destruct (Z.eqb_spec u u') as [Eu|Eu];
      simpl in Hag.
    + rewrite <- El, <- Eu in *. rewrite Hk in Hag. simpl in Hag.
      destruct (held - liq =? 0) eqn:E.
      * apply Z.eqb_eq in E. rewrite lookup_delete_eq. simpl. lia.
      * rewrite lookup_insert_eq. simpl. lia.
    + destruct (held - liq =? 0);
        [rewrite lookup_delete_ne by congruence
        |rewrite lookup_insert_ne by congruence]; lia.
    + destruct (held - liq =? 0);
        [rewrite lookup_delete_ne by congruence
        |rewrite lookup_insert_ne by congruence]; lia.
    + destruct (held - liq =? 0);
        [rewrite lookup_delete_ne by congruence
        |rewrite lookup_insert_ne by congruence]; lia.
Qed.

(** X14. When the agent's records and the pool agree and every position of
    the pool has its tick entries, Agent.remove_position at an index in
    range returns True: the pool call does not raise, the record is popped,
    the active liquidity drops by the recorded liquidity when the range
    holds the current tick, records and pool still agree, and the positions of every other
    owner are as they were. *)
Theorem agent_remove_position_succeeds i a p e :
  agent_consistent a p ->
  positions_have_ticks p ->
  agent_positions a !! Z.to_nat i = Some e ->
  0 <= i ->
  let out := agent_remove_position i (a, p) in
  snd out = Ok true /\
  agent_name (fst (fst out)) = agent_name a /\
  agent_positions (fst (fst out)) = delete (Z.to_nat i) (agent_positions a) /\
  liquidity (snd (fst out))
    = (if in_range (position_lower_tick e) (position_upper_tick e) p
       then liquidity p - position_liquidity e else liquidity p) /\
  agent_consistent (fst (fst out)) (snd (fst out)) /\
  positions_have_ticks (snd (fst out)) /\
  forall o l u, o <> agent_name a ->
    positions (snd (fst out)) !! (o, l, u) = positions p !! (o, l, u).
Proof.
  intros Hc Hpt He Hi.
  destruct (agent_remove_position_step i a p e Hc Hpt He Hi)
    as (Hr & Hn & Hps & Hl & Hc' & Hpt' & Ho).
  cbv zeta. repeat (split; [done|]). exact Ho.
Qed.

Lemma drop_delete_same {A} (es : list A) i :
  drop i (delete i es) = drop (S i) es.
Proof.
  revert i. induction es as [|x es IH]; intros [|i]; simpl; done.
Qed.

Lemma agent_remove_down_from_spec n a p :
  (n <= length (agent_positions a))%nat ->
  agent_consistent a p -> positions_have_ticks p ->
  let out := agent_remove_down_from n (a, p) in
  snd out = Ok tt /\
  agent_name (fst (fst out)) = agent_name a /\
  agent_positions (fst (fst out)) = drop n (agent_positions a) /\
  agent_consistent (fst (fst out)) (snd (fst out)) /\
  positions_have_ticks (snd (fst out)) /\
  forall o l u, o <> agent_name a ->
    positions (snd (fst out)) !! (o, l, u) = positions p !! (o, l, u).
Proof.
  revert a p. induction n as [|n IH]; intros a p Hn Hc Hpt; cbv zeta.
  - simpl. by rewrite drop_0.
  - change (agent_remove_down_from (S n) (a, p))
      with (match agent_remove_position (Z.of_nat n) (a, p) with
            | (st1, Ok _) => agent_remove_down_from n st1
            | (st1, Raise err) => (st1, Raise err)
            end).
    assert (He : is_Some (agent_positions a !! n)) by (apply lookup_lt_is_Some; lia).
    destruct He as [e He].
    pose proof (agent_remove_position_step (Z.of_nat n) a p e Hc Hpt
                  ltac:(by rewrite Nat2Z.id) ltac:(lia))
      as (Hr & Hname & Hps & _ & Hc1 & Hpt1 & Hother1).
    destruct (agent_remove_position (Z.of_nat n) (a, p)) as [[a1 p1] r].
    simpl in *. subst r. rewrite Nat2Z.id in Hps.
    assert (Hn1 : (n <= length (agent_positions a1))%nat).
    { rewrite Hps, length_delete by eauto. lia. }
    destruct (IH a1 p1 Hn1 Hc1 Hpt1) as (Hr2 & Hname2 & Hps2 & Hc2 & Hpt2 & Ho2).
    split; [done|]. split; [congruence|]. split.
    { rewrite Hps2, Hps. apply drop_delete_same. }
    split; [done|]. split; [done|].
    intros o l u Ho. rewrite Ho2 by congruence. by apply Hother1.
Qed.

(** X15. When the agent's records and the pool agree and every position of
    the pool has its tick entries, the loop that removes the agent's
    positions from the last to the first never raises: it returns with no
    record left, the pool holds no liquidity under the agent's name, and
    the positions of every other owner are as they were. *)
Theorem agent_remove_all_succeeds a p :
  agent_consistent a p ->
  positions_have_ticks p ->
  let out := agent_remove_all (a, p) in
  snd out = Ok tt /\
  agent_positions (fst (fst out)) = [] /\
  (forall l u,
     held_liquidity (positions (snd (fst out))) (agent_name a, l, u) = 0) /\
  forall o l u, o <> agent_name a ->
    positions (snd (fst out)) !! (o, l, u) = positions p !! (o, l, u).
Proof.
  intros Hc Hpt. cbv zeta. unfold agent_remove_all. simpl.
  destruct (agent_remove_down_from_spec (length (agent_positions a)) a p
              ltac:(lia) Hc Hpt) as (Hr & Hname & Hps & [_ Hag] & _ & Ho).
  rewrite drop_all in Hps.
  split; [done|]. split; [done|]. split; [|done].
  intros l u. rewrite <- Hname, Hag. unfold recorded_liquidity. by rewrite Hps.
Qed.

(** X16. What another owner does to the pool, and what any swap does,
    leaves an agent's records and the pool in agreement: add_position and
    remove_position under another owner's name, returning or raising, and
    swap. *)
Theorem others_keep_agent_consistent a p :
  agent_consistent a p ->
  (forall o l u x, o <> agent_name a ->
     agent_consistent a (fst (add_position o l u x p)) /\
     agent_consistent a (fst (remove_position o l u x p))) /\
  (forall z amount, agent_consistent a (fst (swap get_tick z amount p))).
Proof.
  intros [Hpos Hag]. split.
  - intros o l u x Ho. split; (split; [done|]); intros l' u';
      rewrite <- Hag; unfold held_liquidity.
    + rewrite add_position_other_keys; [done | simpl; congruence].
    + rewrite remove_position_other_keys; [done | congruence].
  - intros z amount. split; [done|]. intros l' u'. rewrite <- Hag.
    destruct (swap_simple_frame get_tick z amount p) as (_ & _ & Hp & _).
    unfold swap. by rewrite Hp.
Qed.

(** X17. On a pool a run can reach (tick spacing not 0), a position that
    Agent.add_position records with a tick that is not a multiple of the
    tick spacing cannot be removed: the record is appended whether the
    pool call returns or raises, and Agent.remove_position at its index
    raises ValueError and leaves the agent, with the record, and the pool
    as they were. *)
Theorem agent_unaligned_position_stuck l u liq a p :
  reachable get_tick p ->
  tick_spacing p <> 0 ->
  l mod tick_spacing p <> 0 \/ u mod tick_spacing p <> 0 ->
  let st1 := fst (agent_add_position l u liq (a, p)) in
  agent_name (fst st1) = agent_name a /\
  agent_positions (fst st1)
    = agent_positions a ++ [mkAgentPosition l u liq] /\
  agent_remove_position (Z.of_nat (length (agent_positions a))) st1
    = (st1, Raise ValueError).
Proof.
  intros Hr Hs Hun. cbv zeta. unfold agent_add_position.
  pose proof (reachable_aligned get_tick _
                (reachable_add get_tick (agent_name a) l u liq p Hr)) as Hal.
  destruct (add_position_frame (agent_name a) l u liq p) as (_ & Hsp & _).
  destruct (add_position (agent_name a) l u liq p) as [p1 r]. simpl in *.
  split; [done|]. split; [done|].
  unfold agent_remove_position. simpl.
  rewrite length_app. simpl.
  destruct (Z.ltb_spec (Z.of_nat (length (agent_positions a))) 0); [lia|].
  destruct (Z.leb_spec (Z.of_nat (length (agent_positions a) + 1))
              (Z.of_nat (length (agent_positions a)))); [lia|].
  simpl. rewrite Nat2Z.id.
  rewrite lookup_app_r by lia. rewrite Nat.sub_diag. simpl.
  rewrite remove_position_absent; [done|].
  destruct (positions p1 !! (agent_name a, l, u)) as [x|] eqn:Hx; [|done].
  exfalso. apply Hal in Hx as [Hl Hu]. rewrite Hsp in Hl, Hu. tauto.
Qed.

End AgentFacts.

Section SimulationFacts.

Context {F : Type} `{PyFloat F}.
Variable float_abs : F -> F.
Variable agent : Type.
Variable world : Type.
Variable token0_balance : agent -> pynum F.
Variable token1_balance : agent -> pynum F.
Variable act :
  agent -> @Pool F -> Z -> world -> ((agent * @Pool F) * world) * result unit.

Local Abbreviation Sim := (@Simulator F agent).
Local Abbreviation step_of :=
  (run_step float_abs agent world token0_balance token1_balance act).
Local Abbreviation run_of :=
  (run float_abs agent world token0_balance token1_balance act).
Local Abbreviation run_from_of :=
  (run_from float_abs agent world token0_balance token1_balance act).
Local Abbreviation act_all_of :=
  (act_all float_abs agent world token0_balance token1_balance act).

Lemma act_all_length price count todo pool w volume :
  length (fst (fst (fst (act_all_of price count todo pool w volume))))
  = length todo.
Proof.
  revert pool w volume.
  induction todo as [|a rest IH]; intros pool w volume; simpl; [done|].
  destruct (act a pool count w) as [[[a1 pool1] w1] [[]|e]]; [|done].
  destruct (turn_volume _ _ _ _ _ _ _ _); [|done].
  destruct (num_add_float _ _); [|done].
  specialize (IH pool1 w1 (PFloat a2)).
  destruct (act_all_of price count rest pool1 w1 (PFloat a2))
    as [[[rest1 pool2] w2] r].
  simpl in *. by rewrite IH.
Qed.

Lemma run_step_counts step (s s1 : Sim) w w1 :
  step_of step s w = ((s1, w1), Ok tt) ->
  length (price_history s1) = S (length (price_history s)) /\
  length (liquidity_history s1) = S (length (liquidity_history s)) /\
  length (volume_history s1) = S (length (volume_history s)) /\
  step_count s1 = step_count s + 1 /\
  length (sim_agents s1) = length (sim_agents s).
Proof.
  unfold run_step. simpl.
  destruct (int_truediv _ _) as [root|e]; [|done].
  destruct (fsquare root) as [price0|e]; [|done].
  destruct (int_truediv _ _) as [scaled|e]; [|done].
  pose proof (act_all_length (py_max (flit 0.01) price0) (step_count s + 1)
                (sim_agents s)
                (set_liquidity (Z.max 0 (liquidity (sim_pool s))) (sim_pool s))
                w (PInt 0)) as Hlen.
  destruct (act_all_of _ _ _ _ _ _) as [[[agents1 pool2] w2] [volume|e]];
    [|done].
  simpl in Hlen.
  destruct ((step + 1) mod 10 =? 0);
    [destruct (int_truediv _ _); [|done]|];
    intros [= <- <-]; simpl; rewrite !length_app; simpl; repeat split; lia.
Qed.

Lemma run_from_counts n step (s s' : Sim) w w' :
  run_from_of n step s w = ((s', w'), Ok tt) ->
  length (price_history s') = (length (price_history s) + n)%nat /\
  length (liquidity_history s') = (length (liquidity_history s) + n)%nat /\
  length (volume_history s') = (length (volume_history s) + n)%nat /\
  step_count s' = step_count s + Z.of_nat n /\
  length (sim_agents s') = length (sim_agents s).
Proof.
  revert step s w. induction n as [|n IH]; intros step s w; simpl.
  - intros [= <- <-]. repeat split; lia.
  - destruct (step_of step s w) as [[s1 w1] [[]|e]] eqn:Es; [|done].
    intros Hrun. apply run_step_counts in Es as (H1 & H2 & H3 & H4 & H5).
    apply IH in Hrun as (G1 & G2 & G3 & G4 & G5).
    repeat split; lia.
Qed.

(** X18. When run(steps) returns, it has appended exactly one record per
    step to each of the price, liquidity and volume histories, has advanced
    the step count by the number of steps (none for steps <= 0), and holds
    as many agents as before, whatever the agents did. *)
Theorem run_appends_one_record_per_step steps (s s' : Simulator agent) w w' :
  run float_abs agent world token0_balance token1_balance act steps s w
    = ((s', w'), Ok tt) ->
  length (price_history s') = (length (price_history s) + Z.to_nat steps)%nat /\
  length (liquidity_history s')
    = (length (liquidity_history s) + Z.to_nat steps)%nat /\
  length (volume_history s') = (length (volume_history s) + Z.to_nat steps)%nat /\
  step_count s' = step_count s + Z.max 0 steps /\
  length (sim_agents s') = length (sim_agents s).
Proof.
  unfold run. intros Hrun.
  apply run_from_counts in Hrun as (G1 & G2 & G3 & G4 & G5).
  repeat split; try done. lia.
Qed.

Lemma run_step_no_agents step (s s1 : Sim) w w1 :
  sim_agents s = [] ->
  step_of step s w = ((s1, w1), Ok tt) ->
  w1 = w /\
  exists root price0 scaled,
    int_truediv (sqrt_price_x96 (sim_pool s)) (2 ^ 96) = Ok root /\
    fsquare root = Ok price0 /\
    int_truediv (Z.max 0 (liquidity (sim_pool s))) (10 ^ 9) = Ok scaled /\
    s1 = mkSimulator
           (set_liquidity (Z.max 0 (liquidity (sim_pool s))) (sim_pool s)) []
           (price_history s ++ [py_max (flit 0.01) price0])
           (liquidity_history s ++ [scaled])
           (volume_history s ++ [PInt 0])
           (step_count s + 1).
Proof.
  intros Hag. unfold run_step. simpl. rewrite Hag. simpl.
  destruct (int_truediv _ _) as [root|e]; [|done].
  destruct (fsquare root) as [price0|e] eqn:Ep; [|done].
  destruct (int_truediv _ _) as [scaled|e]; [|done].
  destruct ((step + 1) mod 10 =? 0); intros [= <- <-];
    (split; [done|]); exists root, price0, scaled; done.
Qed.

Lemma run_from_no_agents n step (s s' : Sim) w w' root price0 scaled :
  sim_agents s = [] ->
  0 <= liquidity (sim_pool s) ->
  int_truediv (sqrt_price_x96 (sim_pool s)) (2 ^ 96) = Ok root ->
  fsquare root = Ok price0 ->
  int_truediv (liquidity (sim_pool s)) (10 ^ 9) = Ok scaled ->
  run_from_of n step s w = ((s', w'), Ok tt) ->
  w' = w /\
  sim_pool s' = sim_pool s /\
  sim_agents s' = [] /\
  price_history s'
    = price_history s ++ replicate n (py_max (flit 0.01) price0) /\
  liquidity_history s' = liquidity_history s ++ replicate n scaled /\
  volume_history s' = volume_history s ++ replicate n (PInt 0).
Proof.
  revert step s w. induction n as [|n IH];
    intros step s w Hag Hliq Hroot Hprice Hscaled; simpl.
  - intros [= <- <-]. by rewrite !app_nil_r.
  - destruct (step_of step s w) as [[s1 w1] [[]|e]] eqn:Es; [|done].
    apply run_step_no_agents in Es
      as (-> & root' & price0' & scaled' & Er & Ep & Esc & ->); [|done].
    rewrite Z.max_r in Esc by done.
    assert (root' = root) as -> by congruence.
    assert (price0' = price0) as -> by congruence.
    assert (scaled' = scaled) as -> by congruence.
    assert (Epool : set_liquidity (Z.max 0 (liquidity (sim_pool s)))
                      (sim_pool s) = sim_pool s).
    { rewrite Z.max_r by done. by destruct (sim_pool s). }
    rewrite Epool. intros Hrun.
    apply IH in Hrun as (-> & G1 & G2 & G3 & G4 & G5); simpl; try done.
    simpl in *. rewrite G3, G4, G5, <- !app_assoc. done.
Qed.

(** X19. With no agent registered, when run(steps) returns for steps > 0:
    the pool is the pool before the run with its active liquidity raised to
    0 if it was negative, and every step has recorded the same price (the
    descaled price of the pool, raised to 0.01 if it is below), the same
    liquidity (the active liquidity over 10**9) and the volume 0. *)
Theorem run_without_agents steps (s s' : Simulator agent) w w' :
  sim_agents s = [] ->
  0 < steps ->
  run float_abs agent world token0_balance token1_balance act steps s w
    = ((s', w'), Ok tt) ->
  exists root price0 scaled,
    int_truediv (sqrt_price_x96 (sim_pool s)) (2 ^ 96) = Ok root /\
    fsquare root = Ok price0 /\
    int_truediv (Z.max 0 (liquidity (sim_pool s))) (10 ^ 9) = Ok scaled /\
    sim_pool s'
      = set_liquidity (Z.max 0 (liquidity (sim_pool s))) (sim_pool s) /\
    sim_agents s' = [] /\
    price_history s'
      = price_history s
        ++ replicate (Z.to_nat steps) (py_max (flit 0.01) price0) /\
    liquidity_history s'
      = liquidity_history s ++ replicate (Z.to_nat steps) scaled /\
    volume_history s'
      = volume_history s ++ replicate (Z.to_nat steps) (PInt 0).
Proof.
  intros Hag Hsteps. unfold run.
  destruct (Z.to_nat steps) as [|n] eqn:En; [lia|]. clear En Hsteps.
  simpl. destruct (step_of 0 s w) as [[s1 w1] [[]|e]] eqn:Es; [|done].
  apply run_step_no_agents in Es
    as (-> & root & price0 & scaled & Er & Ep & Esc & ->); [|done].
  intros Hrun. exists root, price0, scaled.
  apply (run_from_no_agents n _ _ _ _ _ root price0 scaled) in Hrun
    as (_ & G1 & G2 & G3 & G4 & G5); simpl in *; try done; try lia.
  rewrite G3, G4, G5, <- !app_assoc. done.
Qed.

End SimulationFacts.

(** ** The properties on the example pools, agents and simulators *)

Module Scenarios.

Import Binary64 Examples AgentExamples.

(** A token0 sale on a pool below the price floor moves the tick up, from
    -41591 to -23028: the loop tests new < t <= old, and crosses nothing
    although the ledger has an entry at -30000. *)
Lemma swap_crossings_in_order_witness :
  let p' := fst (swap (converter_returning (-23028)) true (PInt 1)
                   low_price_inner_pool) in
  tick p' = -23028 /\
  ticks p' !! (-30000) = Some (10 ^ 13) /\
  crossed_ticks true (-41591) p' = [] /\
  cross_loop true (-41591) (sorted_ticks true p') p' = p'.
Proof.
  intros p'. split; [by vm_compute|]. split; [by vm_compute|].
  apply (swap_crossings_in_order (converter_returning (-23028)) true (-41591) p').
  vm_compute. discriminate.
Defined.

Lemma one_position_pool_reachable get_tick :
  get_tick sqrt_price_3000 = Ok 80067 -> reachable get_tick one_position_pool.
Proof. intros Hg. apply reachable_add. by apply Runs.fresh_pool_reachable. Qed.

Lemma new_agent_consistent : agent_consistent new_agent fresh_pool.
Proof. split; [constructor | intros l u; reflexivity]. Qed.

Lemma lp_agent_consistent : agent_consistent lp_agent one_position_pool.
Proof.
  split; [repeat constructor|]. intros l u.
  assert (positions one_position_pool
          = {[ ("LP"%string, 79980, 80100) := 10 ^ 13 ]}) as -> by reflexivity.
  unfold held_liquidity, recorded_liquidity, lp_agent.
  cbn [agent_positions foldr position_lower_tick position_upper_tick
       position_liquidity].
  destruct (Z.eqb_spec 79980 l) as [<-|Hl];
    [destruct (Z.eqb_spec 80100 u) as [<-|Hu]|]; cbn [andb].
  - by rewrite lookup_singleton_eq.
  - rewrite lookup_singleton_ne; [done | congruence].
  - rewrite lookup_singleton_ne; [done | congruence].
Qed.

Lemma active_liquidity_is_in_range_total_witness :
  Forall (fun p : @Pool float => liquidity p = in_range_liquidity p)
    (fresh_pool ::
     ledger_states [AddPosition "LP" 79980 80100 5;
                    AddPosition "MM" 80100 80160 7;
                    RemovePosition "LP" 79980 80100 2] fresh_pool).
Proof.
  apply (active_liquidity_is_in_range_total (converter_returning 80067)
           (flit 0.003%Q) 60 sqrt_price_3000).
  reflexivity.
Defined.

Lemma tick_delta_is_boundary_total_witness :
  tick_delta (ticks one_position_pool) 80100
  = net_delta_of_positions one_position_pool 80100.
Proof.
  apply (tick_delta_is_boundary_total (converter_returning 80067)).
  apply one_position_pool_reachable. reflexivity.
Defined.

Lemma remove_position_all_or_nothing_witness :
  let p := one_position_pool in
  remove_position "LP" 79980 80100 4 p = (p, Raise ValueError) \/
  let p' := fst (remove_position "LP" 79980 80100 4 p) in
  snd (remove_position "LP" 79980 80100 4 p) = Ok tt /\
  held_liquidity (positions p') ("LP"%string, 79980, 80100)
    = held_liquidity (positions p) ("LP"%string, 79980, 80100) - 4 /\
  liquidity p' = (if in_range 79980 80100 p then liquidity p - 4 else liquidity p) /\
  sqrt_price_x96 p' = sqrt_price_x96 p /\ tick p' = tick p /\
  fee p' = fee p /\ tick_spacing p' = tick_spacing p.
Proof.
  apply (remove_position_all_or_nothing (converter_returning 80067)).
  apply one_position_pool_reachable. reflexivity.
Defined.

Lemma reachable_ledgers_well_formed_witness :
  let p := one_position_pool in
  ledger_sum (ticks p) = 0 /\
  forall o l u x, positions p !! (o, l, u) = Some x ->
    l mod tick_spacing p = 0 /\ u mod tick_spacing p = 0 /\
    is_Some (ticks p !! l) /\ is_Some (ticks p !! u).
Proof.
  apply (reachable_ledgers_well_formed (converter_returning 80067)).
  apply one_position_pool_reachable. reflexivity.
Defined.

Lemma remove_position_adds_up_witness :
  let p := one_position_pool in
  let p1 := fst (remove_position "LP" 79980 80100 3 p) in
  snd (remove_position "LP" 79980 80100 3 p) = Ok tt /\
  snd (remove_position "LP" 79980 80100 4 p1) = Ok tt /\
  snd (remove_position "LP" 79980 80100 (3 + 4) p) = Ok tt /\
  fst (remove_position "LP" 79980 80100 4 p1)
  = fst (remove_position "LP" 79980 80100 (3 + 4) p).
Proof.
  apply (remove_position_adds_up (converter_returning 80067)
           "LP" 79980 80100 3 4 one_position_pool (10 ^ 13)).
  - apply one_position_pool_reachable. reflexivity.
  - reflexivity.
  - lia.
  - lia.
Defined.

Lemma cross_tick_without_delta_witness :
  cross_tick 80040 one_position_pool = one_position_pool.
Proof.
  apply (cross_tick_without_delta 80040 one_position_pool).
  - reflexivity.
  - vm_compute. discriminate.
Defined.

Lemma swap_returns_consistent_witness :
  let p := one_position_pool in
  let out := swap (converter_returning 80067) true (PInt (5 * 10 ^ 10)) p in
  (true = true -> num_le0 (PInt (5 * 10 ^ 10)) || (liquidity p <=? 0) = false ->
   1 <= sqrt_price_x96 (fst out)) /\
  (converter_returning 80067 (sqrt_price_x96 p) = Ok (tick p) ->
   converter_returning 80067 (sqrt_price_x96 (fst out)) = Ok (tick (fst out))).
Proof.
  eapply (swap_returns_consistent (converter_returning 80067) true
            (PInt (5 * 10 ^ 10)) one_position_pool).
  vm_compute. reflexivity.
Defined.

Lemma agent_add_position_consistent_witness :
  let out := agent_add_position 79980 80100 5 (new_agent, fresh_pool) in
  snd out = Ok tt /\
  agent_name (fst (fst out)) = agent_name new_agent /\
  agent_positions (fst (fst out))
    = agent_positions new_agent ++ [mkAgentPosition 79980 80100 5] /\
  agent_consistent (fst (fst out)) (snd (fst out)).
Proof.
  apply (agent_add_position_consistent 79980 80100 5 new_agent fresh_pool).
  - apply new_agent_consistent.
  - vm_compute. reflexivity.
  - vm_compute. reflexivity.
  - lia.
Defined.

Lemma agent_remove_position_succeeds_witness :
  let a := lp_agent in
  let p := one_position_pool in
  let e := mkAgentPosition 79980 80100 (10 ^ 13) in
  let out := agent_remove_position 0 (a, p) in
  snd out = Ok true /\
  agent_name (fst (fst out)) = agent_name a /\
  agent_positions (fst (fst out)) = delete (Z.to_nat 0) (agent_positions a) /\
  liquidity (snd (fst out))
    = (if in_range (position_lower_tick e) (position_upper_tick e) p
       then liquidity p - position_liquidity e else liquidity p) /\
  agent_consistent (fst (fst out)) (snd (fst out)) /\
  positions_have_ticks (snd (fst out)) /\
  forall o l u, o <> agent_name a ->
    positions (snd (fst out)) !! (o, l, u) = positions p !! (o, l, u).
Proof.
  apply (agent_remove_position_succeeds 0 lp_agent one_position_pool
           (mkAgentPosition 79980 80100 (10 ^ 13))).
  - apply lp_agent_consistent.
  - apply (reachable_have_ticks (converter_returning 80067)).
    apply one_position_pool_reachable. reflexivity.
  - reflexivity.
  - lia.
Defined.

Lemma agent_remove_all_succeeds_witness :
  let a := lp_agent in
  let p := one_position_pool in
  let out := agent_remove_all (a, p) in
  snd out = Ok tt /\
  agent_positions (fst (fst out)) = [] /\
  (forall l u,
     held_liquidity (positions (snd (fst out))) (agent_name a, l, u) = 0) /\
  forall o l u, o <> agent_name a ->
    positions (snd (fst out)) !! (o, l, u) = positions p !! (o, l, u).
Proof.
  apply (agent_remove_all_succeeds lp_agent one_position_pool).
  - apply lp_agent_consistent.
  - apply (reachable_have_ticks (converter_returning 80067)).
    apply one_position_pool_reachable. reflexivity.
Defined.

Lemma others_keep_agent_consistent_witness :
  let a := lp_agent in
  let p := one_position_pool in
  (forall o l u x, o <> agent_name a ->
     agent_consistent a (fst (add_position o l u x p)) /\
     agent_consistent a (fst (remove_position o l u x p))) /\
  (forall z amount,
     agent_consistent a (fst (swap (converter_returning 80067) z amount p))).
Proof.
  apply (others_keep_agent_consistent (converter_returning 80067)
           lp_agent one_position_pool).
  apply lp_agent_consistent.
Defined.

Lemma agent_unaligned_position_stuck_witness :
  let st1 := fst (agent_add_position 80000 80100 5 (new_agent, fresh_pool)) in
  agent_name (fst st1) = agent_name new_agent /\
  agent_positions (fst st1)
    = agent_positions new_agent ++ [mkAgentPosition 80000 80100 5] /\
  agent_remove_position (Z.of_nat (length (agent_positions new_agent))) st1
    = (st1, Raise ValueError).
Proof.
  apply (agent_unaligned_position_stuck (converter_returning 80067)
           80000 80100 5 new_agent fresh_pool).
  - apply Runs.fresh_pool_reachable. reflexivity.
  - vm_compute. discriminate.
  - left. vm_compute. discriminate.
Defined.

Lemma run_appends_one_record_per_step_witness :
  let out := run PrimFloat.abs Agent unit fixed_balance fixed_balance adding_act
               2 lp_simulator tt in
  snd out = Ok tt /\
  length (price_history (fst (fst out))) = 2%nat /\
  length (liquidity_history (fst (fst out))) = 2%nat /\
  length (volume_history (fst (fst out))) = 2%nat /\
  step_count (fst (fst out)) = 2 /\
  length (sim_agents (fst (fst out))) = 1%nat.
Proof.
  cbv zeta.
  destruct (run PrimFloat.abs Agent unit fixed_balance fixed_balance adding_act
              2 lp_simulator tt) as [[s' w'] r] eqn:Erun.
  assert (Hr : r = Ok tt).
  { apply (f_equal snd) in Erun. vm_compute in Erun. congruence. }
  subst r. split; [reflexivity|].
  apply (run_appends_one_record_per_step PrimFloat.abs Agent unit
           fixed_balance fixed_balance adding_act 2 lp_simulator s' tt w')
    in Erun.
  exact Erun.
Defined.

Lemma run_without_agents_witness :
  let s := empty_simulator in
  let out := run PrimFloat.abs Agent unit fixed_balance fixed_balance adding_act
               3 s tt in
  exists root price0 scaled,
    int_truediv (sqrt_price_x96 (sim_pool s)) (2 ^ 96) = Ok root /\
    fsquare root = Ok price0 /\
    int_truediv (Z.max 0 (liquidity (sim_pool s))) (10 ^ 9) = Ok scaled /\
    sim_pool (fst (fst out))
      = set_liquidity (Z.max 0 (liquidity (sim_pool s))) (sim_pool s) /\
    sim_agents (fst (fst out)) = [] /\
    price_history (fst (fst out))
      = price_history s
        ++ replicate (Z.to_nat 3) (py_max (flit 0.01) price0) /\
    liquidity_history (fst (fst out))
      = liquidity_history s ++ replicate (Z.to_nat 3) scaled /\
    volume_history (fst (fst out))
      = volume_history s ++ replicate (Z.to_nat 3) (PInt 0).
Proof.
  cbv zeta.
  destruct (run PrimFloat.abs Agent unit fixed_balance fixed_balance adding_act
              3 empty_simulator tt) as [[s' w'] r] eqn:Erun.
  assert (Hr : r = Ok tt).
  { apply (f_equal snd) in Erun. vm_compute in Erun. congruence. }
  subst r.
  apply (run_without_agents PrimFloat.abs Agent unit fixed_balance
           fixed_balance adding_act 3 empty_simulator s' tt w');
    [reflexivity | lia | exact Erun].
Defined.

End Scenarios.

